(** * MapillaryModel: the imagery/map synchroniser

    A shallow embedding of
    [libraries/mapillary/src/components/Mapillary/MapillaryModel.ts].

    - JavaScript numbers are binary64 floats ([PrimFloat.float]).
    - The fields of the class are a record, [MapillaryModel]; the [this] of
      every method is the [self] component of a [World].
    - An [async] method is a program of the free monad [Async]: it reads and
      updates [this], calls collaborators synchronously, and suspends at each
      [await] until the awaited promises settle.  What the collaborators (the
      viewer SDK, the image index, the host's command bus) answer is not
      part of the source: it is an [Oracle].
    - The property setters and event handlers are synchronous functions on
      the [World]; [void f()] starts [f] and leaves its continuation among
      the [pending] tasks of the world. *)

From Stdlib Require Import List String Bool Floats Arith Lia.
Import ListNotations.

Set Implicit Arguments.
Set Warnings "-register-all".

(** ** Values exchanged with the collaborators *)

(** Objects compared with [===] are represented by their identity. *)
Definition Viewer := nat.
Definition MapModel := nat.
Definition Handle := nat.
Definition Response := nat.

(** mapillary-js [ILatLon]. *)
Record LatLon := { lat : float; lon : float }.

(** esri [Point], as far as the model reads it. *)
Record Point := { pt_latitude : float; pt_longitude : float }.

(** The result of [getPointOfView()]. *)
Record PointOfView := { bearing : float; pov_tilt : float }.

(** mapillary-js [Node], as far as [_onNodeChange] reads it. *)
Record Node := { merged : bool; latLon : LatLon }.

(** [map.view], as far as [_syncMaps] reads it. *)
Record View := { center : Point }.

Record MapillaryCamera := {
  latitude : float;
  longitude : float;
  heading : float;
  tilt : float;
  fov : float
}.

(** The viewer events the model listens to. *)
Inductive ViewerEvent := nodechanged | povchanged.

(** A value produced by [response.json()]. An object is the list of its
    properties; their names are distinct, and of a list that repeats a
    name the first entry is the one read. *)
Inductive JSON :=
| JNull
| JBool (b : bool)
| JNum (x : float)
| JStr (s : string)
| JArr (xs : list JSON)
| JObj (fields : list (string * JSON)).

(** A JavaScript value read out of such an answer: [None] is
    [undefined]. *)
Definition Value := option JSON.

(** The image query: the template string of [moveCloseToPosition] kept
    as its parts, [closeto] being [(longitude, latitude)]. *)
Record Url := {
  endpoint : string;
  client_id : string;
  closeto : float * float;
  radius : float
}.

Record CreateArgs := {
  c_fov : float;
  c_geometry : Point;
  c_heading : float;
  c_tilt : float;
  c_id : string;
  c_maps : option MapModel;
  c_userDraggable : bool
}.

Record UpdateArgs := {
  u_geometry : Point;
  u_heading : float;
  u_tilt : float;
  u_fov : float;
  u_id : string;
  u_maps : option MapModel
}.

Record RemoveArgs := { r_id : string; r_maps : option MapModel }.

Record Viewpoint := {
  rotation : float;
  targetGeometry : Point;
  scale : float
}.

Record ZoomArgs := { z_maps : option MapModel; viewpoint : Viewpoint }.

(** ** Asynchronous requests *)

(** Every call of the source that returns a promise. *)
Inductive Request :=
| Fetch (url : Url)
| ResponseJson (resp : Response)
| MoveToKey (v : Viewer) (key : Value)
| GetPosition (v : Viewer)
| GetPointOfView (v : Viewer)
| GetFieldOfView (v : Viewer)
| LocationMarkerCreate (a : CreateArgs)
| LocationMarkerUpdate (a : UpdateArgs)
| LocationMarkerRemove (a : RemoveArgs)
| ZoomToViewpoint (a : ZoomArgs).

(** What a fulfilled promise of each request carries. *)
Definition reply (r : Request) : Type :=
  match r with
  | Fetch _ => Response
  | ResponseJson _ => JSON
  | GetPosition _ => LatLon
  | GetPointOfView _ => PointOfView
  | GetFieldOfView _ => float
  | MoveToKey _ _ | LocationMarkerCreate _ | LocationMarkerUpdate _
  | LocationMarkerRemove _ | ZoomToViewpoint _ => unit
  end.

Inductive Error :=
| TypeError              (* a property read on [undefined] *)
| Failure (reason : nat) (* a rejection coming from a collaborator *).

Inductive Outcome (T : Type) :=
| Resolved (x : T)
| Rejected (e : Error).
Arguments Rejected {T} e.

Definition is_resolved {T} (o : Outcome T) : bool :=
  match o with Resolved _ => true | Rejected _ => false end.

(** The behaviour of the collaborators: how each promise settles. A method
    makes each of its requests once, so that a function of the request
    covers every behaviour during one run of a method. *)
Definition Oracle := forall r : Request, Outcome (reply r).

(** The promises awaited together at one [await]: a single promise, a
    plain value, or the members of a [Promise.all]. *)
Inductive Bundle : Type -> Type :=
| One (r : Request) : Bundle (reply r)
| Now {T} (x : T) : Bundle T
| Both {A B} (a : Bundle A) (b : Bundle B) : Bundle (A * B).

(** The calls made while the members of the bundle are evaluated, in
    source order. *)
Fixpoint requests {T} (b : Bundle T) : list Request :=
  match b with
  | One r => [r]
  | Now _ => []
  | Both a b => requests a ++ requests b
  end.

(** [Promise.all] is fulfilled with all the values when every member is,
    and rejected otherwise; of several rejections the leftmost is kept. *)
Fixpoint settle (o : Oracle) {T} (b : Bundle T) : Outcome T :=
  match b in Bundle T return Outcome T with
  | One r => o r
  | Now x => Resolved x
  | Both a b =>
      match settle o a, settle o b with
      | Resolved x, Resolved y => Resolved (x, y)
      | Rejected e, _ => Rejected e
      | _, Rejected e => Rejected e
      end
  end.

(** ** Observable events *)

Inductive Event :=
| On (v : Viewer) (e : ViewerEvent)       (* viewer.on(e, handler) *)
| Off (v : Viewer) (e : ViewerEvent)      (* viewer.off(e, handler) *)
| ActivateCover (v : Viewer)              (* viewer.activateCover() *)
| Subscribe (h : Handle)                  (* locationMarker.updated.subscribe *)
| Watch (h : Handle)                      (* this.watch("map.view", ...) *)
| HandleRemove (h : Handle)               (* handle.remove() *)
| Issued (r : Request)                    (* a promise-returning call *)
| Settled (r : Request) (ok : bool)       (* its promise settled *)
| UnhandledRejection (e : Error)          (* a discarded promise rejected *).

Definition settled (o : Oracle) {T} (b : Bundle T) : list Event :=
  map (fun r => Settled r (is_resolved (o r))) (requests b).

(** ** The fields of the class *)

Record MapillaryModel := {
  id : string;
  mapillaryKey : string;
  searchRadius : float;
  defaultScale : float;
  startSynced : option bool;
  synchronizePosition : bool; (* read for its truth value only *)
  imageQueryUrl : string;
  currentMarkerPosition : option Point;
  updating : bool;
  _currentNodePosition : option LatLon;
  _awaitViewHandle : option Handle;
  _viewerUpdateHandle : option Handle;
  _handleMarkerUpdate : bool;
  _synced : bool;
  _mapillary : option Viewer;
  _map : option MapModel
}.

Definition set_synchronizePosition (x : bool) (m : MapillaryModel) :=
  {| id := id m; mapillaryKey := mapillaryKey m;
     searchRadius := searchRadius m; defaultScale := defaultScale m;
     startSynced := startSynced m; synchronizePosition := x;
     imageQueryUrl := imageQueryUrl m;
     currentMarkerPosition := currentMarkerPosition m;
     updating := updating m;
     _currentNodePosition := _currentNodePosition m;
     _awaitViewHandle := _awaitViewHandle m;
     _viewerUpdateHandle := _viewerUpdateHandle m;
     _handleMarkerUpdate := _handleMarkerUpdate m; _synced := _synced m;
     _mapillary := _mapillary m; _map := _map m |}.

Definition set_currentMarkerPosition (x : option Point) (m : MapillaryModel) :=
  {| id := id m; mapillaryKey := mapillaryKey m;
     searchRadius := searchRadius m; defaultScale := defaultScale m;
     startSynced := startSynced m;
     synchronizePosition := synchronizePosition m;
     imageQueryUrl := imageQueryUrl m;
     currentMarkerPosition := x;
     updating := updating m;
     _currentNodePosition := _currentNodePosition m;
     _awaitViewHandle := _awaitViewHandle m;
     _viewerUpdateHandle := _viewerUpdateHandle m;
     _handleMarkerUpdate := _handleMarkerUpdate m; _synced := _synced m;
     _mapillary := _mapillary m; _map := _map m |}.

Definition set_updating (x : bool) (m : MapillaryModel) :=
  {| id := id m; mapillaryKey := mapillaryKey m;
     searchRadius := searchRadius m; defaultScale := defaultScale m;
     startSynced := startSynced m;
     synchronizePosition := synchronizePosition m;
     imageQueryUrl := imageQueryUrl m;
     currentMarkerPosition := currentMarkerPosition m;
     updating := x;
     _currentNodePosition := _currentNodePosition m;
     _awaitViewHandle := _awaitViewHandle m;
     _viewerUpdateHandle := _viewerUpdateHandle m;
     _handleMarkerUpdate := _handleMarkerUpdate m; _synced := _synced m;
     _mapillary := _mapillary m; _map := _map m |}.

Definition set_currentNodePosition (x : option LatLon) (m : MapillaryModel) :=
  {| id := id m; mapillaryKey := mapillaryKey m;
     searchRadius := searchRadius m; defaultScale := defaultScale m;
     startSynced := startSynced m;
     synchronizePosition := synchronizePosition m;
     imageQueryUrl := imageQueryUrl m;
     currentMarkerPosition := currentMarkerPosition m;
     updating := updating m;
     _currentNodePosition := x;
     _awaitViewHandle := _awaitViewHandle m;
     _viewerUpdateHandle := _viewerUpdateHandle m;
     _handleMarkerUpdate := _handleMarkerUpdate m; _synced := _synced m;
     _mapillary := _mapillary m; _map := _map m |}.

Definition set_awaitViewHandle (x : option Handle) (m : MapillaryModel) :=
  {| id := id m; mapillaryKey := mapillaryKey m;
     searchRadius := searchRadius m; defaultScale := defaultScale m;
     startSynced := startSynced m;
     synchronizePosition := synchronizePosition m;
     imageQueryUrl := imageQueryUrl m;
     currentMarkerPosition := currentMarkerPosition m;
     updating := updating m;
     _currentNodePosition := _currentNodePosition m;
     _awaitViewHandle := x;
     _viewerUpdateHandle := _viewerUpdateHandle m;
     _handleMarkerUpdate := _handleMarkerUpdate m; _synced := _synced m;
     _mapillary := _mapillary m; _map := _map m |}.

Definition set_viewerUpdateHandle (x : option Handle) (m : MapillaryModel) :=
  {| id := id m; mapillaryKey := mapillaryKey m;
     searchRadius := searchRadius m; defaultScale := defaultScale m;
     startSynced := startSynced m;
     synchronizePosition := synchronizePosition m;
     imageQueryUrl := imageQueryUrl m;
     currentMarkerPosition := currentMarkerPosition m;
     updating := updating m;
     _currentNodePosition := _currentNodePosition m;
     _awaitViewHandle := _awaitViewHandle m;
     _viewerUpdateHandle := x;
     _handleMarkerUpdate := _handleMarkerUpdate m; _synced := _synced m;
     _mapillary := _mapillary m; _map := _map m |}.

Definition set_handleMarkerUpdate (x : bool) (m : MapillaryModel) :=
  {| id := id m; mapillaryKey := mapillaryKey m;
     searchRadius := searchRadius m; defaultScale := defaultScale m;
     startSynced := startSynced m;
     synchronizePosition := synchronizePosition m;
     imageQueryUrl := imageQueryUrl m;
     currentMarkerPosition := currentMarkerPosition m;
     updating := updating m;
     _currentNodePosition := _currentNodePosition m;
     _awaitViewHandle := _awaitViewHandle m;
     _viewerUpdateHandle := _viewerUpdateHandle m;
     _handleMarkerUpdate := x; _synced := _synced m;
     _mapillary := _mapillary m; _map := _map m |}.

Definition set_synced (x : bool) (m : MapillaryModel) :=
  {| id := id m; mapillaryKey := mapillaryKey m;
     searchRadius := searchRadius m; defaultScale := defaultScale m;
     startSynced := startSynced m;
     synchronizePosition := synchronizePosition m;
     imageQueryUrl := imageQueryUrl m;
     currentMarkerPosition := currentMarkerPosition m;
     updating := updating m;
     _currentNodePosition := _currentNodePosition m;
     _awaitViewHandle := _awaitViewHandle m;
     _viewerUpdateHandle := _viewerUpdateHandle m;
     _handleMarkerUpdate := _handleMarkerUpdate m; _synced := x;
     _mapillary := _mapillary m; _map := _map m |}.

Definition set__mapillary (x : option Viewer) (m : MapillaryModel) :=
  {| id := id m; mapillaryKey := mapillaryKey m;
     searchRadius := searchRadius m; defaultScale := defaultScale m;
     startSynced := startSynced m;
     synchronizePosition := synchronizePosition m;
     imageQueryUrl := imageQueryUrl m;
     currentMarkerPosition := currentMarkerPosition m;
     updating := updating m;
     _currentNodePosition := _currentNodePosition m;
     _awaitViewHandle := _awaitViewHandle m;
     _viewerUpdateHandle := _viewerUpdateHandle m;
     _handleMarkerUpdate := _handleMarkerUpdate m; _synced := _synced m;
     _mapillary := x; _map := _map m |}.

Definition set__map (x : option MapModel) (m : MapillaryModel) :=
  {| id := id m; mapillaryKey := mapillaryKey m;
     searchRadius := searchRadius m; defaultScale := defaultScale m;
     startSynced := startSynced m;
     synchronizePosition := synchronizePosition m;
     imageQueryUrl := imageQueryUrl m;
     currentMarkerPosition := currentMarkerPosition m;
     updating := updating m;
     _currentNodePosition := _currentNodePosition m;
     _awaitViewHandle := _awaitViewHandle m;
     _viewerUpdateHandle := _viewerUpdateHandle m;
     _handleMarkerUpdate := _handleMarkerUpdate m; _synced := _synced m;
     _mapillary := _mapillary m; _map := x |}.

(** ** Asynchronous programs *)

(** The body of an [async] method. [Read] and [Update] act on [this];
    [ViewOf] reads [map.view] of a map of the host; [Call] is a synchronous
    call on a collaborator; [Await] suspends the method until the bundle
    settles. *)
Inductive Async (A : Type) : Type :=
| Ret (a : A)
| Throw (e : Error)
| Read (k : MapillaryModel -> Async A)
| Update (f : MapillaryModel -> MapillaryModel) (k : Async A)
| ViewOf (m : MapModel) (k : option View -> Async A)
| Call (ev : Event) (k : Async A)
| Await {T} (b : Bundle T) (k : Outcome T -> Async A).
Arguments Throw {A} e.

Fixpoint bind {A B} (p : Async A) (f : A -> Async B) : Async B :=
  match p with
  | Ret a => f a
  | Throw e => Throw e
  | Read k => Read (fun m => bind (k m) f)
  | Update g k => Update g (bind k f)
  | ViewOf m k => ViewOf m (fun v => bind (k v) f)
  | Call ev k => Call ev (bind k f)
  | Await b k => Await b (fun o => bind (k o) f)
  end.

(** [try { p } catch { h }]. *)
Fixpoint try_catch {A} (p : Async A) (h : Error -> Async A) : Async A :=
  match p with
  | Ret a => Ret a
  | Throw e => h e
  | Read k => Read (fun m => try_catch (k m) h)
  | Update g k => Update g (try_catch k h)
  | ViewOf m k => ViewOf m (fun v => try_catch (k v) h)
  | Call ev k => Call ev (try_catch k h)
  | Await b k => Await b (fun o => try_catch (k o) h)
  end.

Declare Scope async_scope.
Delimit Scope async_scope with async.
Notation "x <- p ;; q" := (bind p (fun x => q))
  (at level 61, p at next level, right associativity) : async_scope.
Notation "p ;; q" := (bind p (fun _ => q))
  (at level 61, right associativity) : async_scope.
Local Open Scope async_scope.

(** [this], read now. *)
Definition this : Async MapillaryModel := Read (fun m => Ret m).

(** An assignment to a field of [this]. *)
Definition assign (f : MapillaryModel -> MapillaryModel) : Async unit :=
  Update f (Ret tt).

Definition call (ev : Event) : Async unit := Call ev (Ret tt).

(** [await b]: the value of the bundle, or its rejection thrown here. *)
Definition await {T} (b : Bundle T) : Async T :=
  Await b (fun o =>
    match o with
    | Resolved x => Ret x
    | Rejected e => Throw e
    end).

(** [await promise.finally(cb)]: [cb] runs however the promise settles,
    and the outcome passes through. *)
Definition await_finally {T} (b : Bundle T) (cb : Async unit) : Async T :=
  Await b (fun o =>
    cb ;;
    match o with
    | Resolved x => Ret x
    | Rejected e => Throw e
    end).

(** ** The world: the model, the host's maps, the log, the pending tasks *)

(** A method suspended at an [await]. *)
Inductive Suspended :=
| Susp {T} (b : Bundle T) (k : Outcome T -> Async unit).

Record World := {
  self : MapillaryModel;
  view : MapModel -> option View;  (* [map.view] of each map of the host *)
  log : list Event;                (* oldest first *)
  pending : list Suspended;
  next_handle : Handle
}.

Definition with_self (m : MapillaryModel) (w : World) : World :=
  {| self := m; view := view w; log := log w; pending := pending w;
     next_handle := next_handle w |}.

Definition record (evs : list Event) (w : World) : World :=
  {| self := self w; view := view w; log := log w ++ evs;
     pending := pending w; next_handle := next_handle w |}.

Definition with_pending (ps : list Suspended) (w : World) : World :=
  {| self := self w; view := view w; log := log w; pending := ps;
     next_handle := next_handle w |}.

(** A fresh handle of the host. *)
Definition fresh_handle (w : World) : Handle * World :=
  (next_handle w,
   {| self := self w; view := view w; log := log w; pending := pending w;
      next_handle := S (next_handle w) |}).

(** [run o p w]: the method [p] run to the end from [w], nothing else
    running in between, every promise settling as [o] says. The result is
    how the promise returned by the method settles. *)
Fixpoint run (o : Oracle) {A} (p : Async A) (w : World) : Outcome A * World :=
  match p with
  | Ret a => (Resolved a, w)
  | Throw e => (Rejected e, w)
  | Read k => run o (k (self w)) w
  | Update f k => run o k (with_self (f (self w)) w)
  | ViewOf m k => run o (k (view w m)) w
  | Call ev k => run o k (record [ev] w)
  | Await b k =>
      run o (k (settle o b))
          (record (map Issued (requests b) ++ settled o b) w)
  end.

(** A method run up to its next [await]. *)
Inductive Paused (A : Type) :=
| Finished (r : Outcome A)
| Waiting {T} (b : Bundle T) (k : Outcome T -> Async A).

Fixpoint advance {A} (p : Async A) (w : World) : Paused A * World :=
  match p with
  | Ret a => (Finished (Resolved a), w)
  | Throw e => (Finished (Rejected e), w)
  | Read k => advance (k (self w)) w
  | Update f k => advance k (with_self (f (self w)) w)
  | ViewOf m k => advance (k (view w m)) w
  | Call ev k => advance k (record [ev] w)
  | Await b k => (Waiting b k, record (map Issued (requests b)) w)
  end.

(** [void p]: [p] runs up to its first [await]; the rest is left pending,
    and nobody looks at how it ends. *)
Definition spawn (p : Async unit) (w : World) : World :=
  match advance p w with
  | (Finished (Resolved _), w') => w'
  | (Finished (Rejected e), w') => record [UnhandledRejection e] w'
  | (Waiting b k, w') => with_pending (pending w' ++ [Susp b k]) w'
  end.

Fixpoint remove_nth {X} (i : nat) (xs : list X) : list X :=
  match i, xs with
  | _, [] => []
  | O, _ :: xs' => xs'
  | S i', x :: xs' => x :: remove_nth i' xs'
  end.

(** The [i]-th pending task resumes: its bundle settles as [o] says and
    the task runs up to its next [await]. *)
Definition resume (o : Oracle) (i : nat) (w : World) : World :=
  match nth_error (pending w) i with
  | None => w
  | Some (Susp b k) =>
      spawn (k (settle o b))
            (record (settled o b) (with_pending (remove_nth i (pending w)) w))
  end.

(** Synchronous code either completes or throws. *)
Inductive Completion :=
| Normal (w : World)
| Abrupt (e : Error) (w : World).

Definition world_of (c : Completion) : World :=
  match c with Normal w | Abrupt _ w => w end.

(** ** JavaScript values *)

Fixpoint lookup (name : string) (fields : list (string * JSON)) : Value :=
  match fields with
  | [] => None
  | (n, v) :: rest => if String.eqb n name then Some v else lookup name rest
  end.

(** [v?.name], for the names read by the source ([features], [properties],
    [key]): only an object can have such a property. *)
Definition opt_member (name : string) (v : Value) : Value :=
  match v with
  | Some (JObj fields) => lookup name fields
  | _ => None
  end.

(** [v?.[0]]: the first element of an array, the first character of a
    string, the property ["0"] of an object. *)
Definition opt_first (v : Value) : Value :=
  match v with
  | Some (JArr xs) => hd_error xs
  | Some (JStr (String c _)) => Some (JStr (String c EmptyString))
  | Some (JObj fields) => lookup "0" fields
  | _ => None
  end.

(** The truth value of a JavaScript value in a condition. *)
Definition truthy (v : Value) : bool :=
  match v with
  | None | Some JNull => false
  | Some (JBool b) => b
  | Some (JNum x) => negb (PrimFloat.eqb x 0 || PrimFloat.is_nan x)
  | Some (JStr s) => negb (String.eqb s "")
  | Some (JArr _) | Some (JObj _) => true
  end.

(** [data?.features?.[0]?.properties?.key] *)
Definition imgKey_of (data : JSON) : Value :=
  opt_member "key" (opt_member "properties"
    (opt_first (opt_member "features" (Some data)))).

(** [x ?? d] *)
Definition nullish {X} (x : option X) (d : X) : X :=
  match x with Some v => v | None => d end.

(** ** The methods of [MapillaryModel] *)

Definition getCameraRotationFromBearing (bearing : float) : float :=
  (360 - bearing)%float.

(** [this.mapillary], for a method call on it: a [TypeError] when it is
    [undefined]. *)
Definition the_mapillary : Async Viewer :=
  m <- this ;;
  match _mapillary m with
  | Some v => Ret v
  | None => Throw TypeError
  end.

Definition _activateCover : Async unit :=
  assign (set_updating false) ;;
  v <- the_mapillary ;;
  call (ActivateCover v).

(** [`${imageQueryUrl}?client_id=${mapillaryKey}&closeto=${longitude},${latitude}&radius=${searchRadius}`] *)
Definition query_url (m : MapillaryModel) (latitude longitude : float) : Url :=
  {| endpoint := imageQueryUrl m;
     client_id := mapillaryKey m;
     closeto := (longitude, latitude);
     radius := searchRadius m |}.

Definition moveCloseToPosition (latitude longitude : float) : Async unit :=
  try_catch
    (m <- this ;;
     let url := query_url m latitude longitude in
     response <- await (One (Fetch url)) ;;
     data <- await (One (ResponseJson response)) ;;
     let imgKey := imgKey_of data in
     if truthy imgKey then
       v <- the_mapillary ;;
       await (One (MoveToKey v imgKey)) ;;
       assign (set_updating false)
     else
       assign (set_updating false) ;;
       _activateCover)
    (fun _ =>
       assign (set_updating false) ;;
       _activateCover).

(** [const { ... } = await this._getMapillaryCamera()]: destructuring
    [undefined] throws. *)
Definition destructure (cam : option MapillaryCamera) : Async MapillaryCamera :=
  match cam with
  | Some c => Ret c
  | None => Throw TypeError
  end.

Definition _getMapillaryCamera : Async (option MapillaryCamera) :=
  m <- this ;;
  match _mapillary m with
  | None => Ret None
  | Some v =>
      let position : Bundle LatLon :=
        match _currentNodePosition m with
        | Some p => Now p
        | None => One (GetPosition v)
        end in
      r <- await (Both (Both position (One (GetPointOfView v)))
                       (One (GetFieldOfView v))) ;;
      let '(p, pov, fov) := r in
      Ret (Some {| latitude := lat p;
                   longitude := lon p;
                   heading := bearing pov;
                   tilt := (pov_tilt pov + 90)%float;
                   fov := fov |})
  end.

(** The argument of [map.zoomToViewpoint.execute], the same at its three
    call sites. *)
Definition zoomToViewpoint (m : MapillaryModel) (heading : float)
    (centerPoint : Point) : Request :=
  ZoomToViewpoint
    {| z_maps := _map m;
       viewpoint := {| rotation := getCameraRotationFromBearing heading;
                       targetGeometry := centerPoint;
                       scale := defaultScale m |} |}.

(** [this.synchronizePosition ? zoomToViewpoint.execute(...) : undefined] *)
Definition zoom_if_synchronizing (m : MapillaryModel) (heading : float)
    (centerPoint : Point) : Bundle unit :=
  if synchronizePosition m
  then One (zoomToViewpoint m heading centerPoint)
  else Now tt.

Definition recenter : Async unit :=
  cam <- _getMapillaryCamera ;;
  c <- destructure cam ;;
  let centerPoint := {| pt_latitude := latitude c;
                        pt_longitude := longitude c |} in
  m <- this ;;
  await (One (zoomToViewpoint m (heading c) centerPoint)).

Definition _syncMaps : Async unit :=
  m <- this ;;
  match _map m, _mapillary m, _synced m with
  | Some _, Some _, false =>
      assign (set_synced true) ;;
      assign (fun m => set_synchronizePosition (nullish (startSynced m) true) m) ;;
      m <- this ;;
      vw <- match _map m with
            | Some mp => ViewOf mp (fun vw => Ret vw)
            | None => Throw TypeError
            end ;;
      match vw with
      | None => Throw TypeError
      | Some vw =>
          moveCloseToPosition (pt_latitude (center vw))
                              (pt_longitude (center vw)) ;;
          cam <- _getMapillaryCamera ;;
          c <- destructure cam ;;
          let centerPoint := {| pt_latitude := latitude c;
                                pt_longitude := longitude c |} in
          m <- this ;;
          await (Both
            (One (LocationMarkerCreate
                    {| c_fov := fov c;
                       c_geometry := centerPoint;
                       c_heading := heading c;
                       c_tilt := tilt c;
                       c_id := id m;
                       c_maps := _map m;
                       c_userDraggable := true |}))
            (zoom_if_synchronizing m (heading c) centerPoint)) ;;
          Ret tt
      end
  | _, _, _ => Ret tt
  end.

Definition _unsyncMaps : Async unit :=
  assign (set_synced false) ;;
  m <- this ;;
  await (One (LocationMarkerRemove {| r_id := id m; r_maps := _map m |})).

(** The function wrapped by [throttle(..., 128)]; when the wrapper lets a
    call through is a matter of time and is left to the caller. *)
Definition _onPerspectiveChange : Async unit :=
  m <- this ;;
  match _map m, _mapillary m, updating m with
  | Some _, Some _, false =>
      assign (set_updating true) ;;
      cam <- _getMapillaryCamera ;;
      c <- destructure cam ;;
      let centerPoint := {| pt_latitude := latitude c;
                            pt_longitude := longitude c |} in
      assign (set_handleMarkerUpdate false) ;;
      m <- this ;;
      await_finally
        (Both
          (One (LocationMarkerUpdate
                  {| u_geometry := centerPoint;
                     u_heading := heading c;
                     u_tilt := tilt c;
                     u_fov := fov c;
                     u_id := id m;
                     u_maps := _map m |}))
          (zoom_if_synchronizing m (heading c) centerPoint))
        (assign (set_updating false)) ;;
      Ret tt
  | _, _, _ => Ret tt
  end.

(** ** The setters and the event handlers *)

Definition emit (ev : Event) (w : World) : World := record [ev] w.

Definition modify (f : MapillaryModel -> MapillaryModel) (w : World) : World :=
  with_self (f (self w)) w.

(** [handle?.remove()] *)
Definition remove_handle (h : option Handle) (w : World) : World :=
  match h with
  | Some h => emit (HandleRemove h) w
  | None => w
  end.

Definition same_instance (a b : option nat) : bool :=
  match a, b with
  | Some x, Some y => Nat.eqb x y
  | None, None => true
  | _, _ => false
  end.

(** Lines 68-81 of [set mapillary]: what is done before the field is
    written. *)
Definition set_mapillary_cleanup (w : World) : World :=
  let w := remove_handle (_viewerUpdateHandle (self w)) w in
  match _mapillary (self w) with
  | Some old =>
      let w := emit (Off old nodechanged) w in
      let w := emit (Off old povchanged) w in
      let w := emit (ActivateCover old) w in
      spawn _unsyncMaps w
  | None => w
  end.

(** Lines 86-100 of [set mapillary]: what is done after the field is
    written. [this.map.view] is read only when [_synced] is false. *)
Definition set_mapillary_attach (instance : option Viewer) (w : World)
    : Completion :=
  let w :=
    match instance with
    | Some v =>
        let w := emit (On v nodechanged) w in
        let (h, w) := fresh_handle w in
        let w := emit (Subscribe h) w in
        modify (set_viewerUpdateHandle (Some h)) w
    | None => w
    end in
  if negb (_synced (self w)) then
    match _map (self w) with
    | None => Abrupt TypeError w
    | Some mp =>
        match view w mp with
        | Some _ => Normal (spawn _syncMaps w)
        | None => Normal w
        end
    end
  else Normal w.

Definition set_mapillary (instance : option Viewer) (w : World) : Completion :=
  if same_instance instance (_mapillary (self w)) then Normal w
  else
    let w := set_mapillary_cleanup w in
    let w := modify (set__mapillary instance) w in
    set_mapillary_attach instance w.

(** Lines 113-116 of [set map]. *)
Definition set_map_cleanup (w : World) : World :=
  match _map (self w) with
  | Some _ => spawn _unsyncMaps w
  | None => w
  end.

(** The callback given to [this.watch("map.view", ...)]. *)
Definition on_map_view (vw : option View) (w : World) : Completion :=
  match vw with
  | Some _ =>
      match _awaitViewHandle (self w) with
      | Some h => Normal (spawn _syncMaps (emit (HandleRemove h) w))
      | None => Abrupt TypeError w
      end
  | None => Normal w
  end.

Definition set_map (instance : option MapModel) (w : World) : World :=
  if same_instance instance (_map (self w)) then w
  else
    let w := set_map_cleanup w in
    let w := modify (set__map instance) w in
    let (h, w) := fresh_handle w in
    let w := emit (Watch h) w in
    modify (set_awaitViewHandle (Some h)) w.

(** The event of [locationMarker.updated], as far as it is read. *)
Record MarkerEvent := { geometry : Point }.

Definition _handleViewerUpdate (event : MarkerEvent) (m : MapillaryModel)
    : MapillaryModel :=
  let m :=
    if _handleMarkerUpdate m then
      let updatePoint := geometry event in
      set_currentMarkerPosition
        (Some {| pt_latitude := pt_latitude updatePoint;
                 pt_longitude := pt_longitude updatePoint |}) m
    else m in
  set_handleMarkerUpdate true m.

(** [_onNodeChange]; [through] says whether the throttle lets the call of
    [_onPerspectiveChange] through. *)
Definition _onNodeChange (through : bool) (node : Node) (w : World)
    : Completion :=
  if merged node then
    let w := modify (set_currentNodePosition (Some (latLon node))) w in
    let w := if through then spawn _onPerspectiveChange w else w in
    match _mapillary (self w) with
    | Some v => Normal (emit (On v povchanged) w)
    | None => Abrupt TypeError w
    end
  else
    let w := modify (set_currentNodePosition None) w in
    match _mapillary (self w) with
    | Some v => Normal (emit (Off v povchanged) w)
    | None => Abrupt TypeError w
    end.

(** [_onDestroy], after the base class's part. *)
Definition _onDestroy (w : World) : World :=
  let w := remove_handle (_viewerUpdateHandle (self w)) w in
  remove_handle (_awaitViewHandle (self w)) w.

(** A model as the constructor leaves it, with the defaults of
    [_getSerializableProperties]. *)
Definition new_model (component_id : string) : MapillaryModel :=
  {| id := component_id;
     mapillaryKey := "";
     searchRadius := 500%float;
     defaultScale := 3000%float;
     startSynced := Some true;
     synchronizePosition := false;
     imageQueryUrl := "https://a.mapillary.com/v3/images";
     currentMarkerPosition := None;
     updating := false;
     _currentNodePosition := None;
     _awaitViewHandle := None;
     _viewerUpdateHandle := None;
     _handleMarkerUpdate := true;
     _synced := false;
     _mapillary := None;
     _map := None |}.

Definition new_world (m : MapillaryModel) (views : MapModel -> option View)
    : World :=
  {| self := m; view := views; log := []; pending := []; next_handle := 0 |}.

(** ** What a run adds to the log *)

Definition clear_log (w : World) : World :=
  {| self := self w; view := view w; log := []; pending := pending w;
     next_handle := next_handle w |}.


(** The events of a run of [p] from [w], oldest first. *)
Definition events_of (o : Oracle) {A} (p : Async A) (w : World) : list Event :=
  log (snd (run o p (clear_log w))).

(** The location markers created under the component id [cid] and not yet
    removed, after the events [evs]: a fulfilled [create] adds one, a
    fulfilled [remove] removes them. *)
Definition count_marker (cid : string) (n : nat) (ev : Event) : nat :=
  match ev with
  | Settled (LocationMarkerCreate a) true =>
      if String.eqb (c_id a) cid then S n else n
  | Settled (LocationMarkerRemove a) true =>
      if String.eqb (r_id a) cid then 0 else n
  | _ => n
  end.

Definition live_markers (cid : string) (evs : list Event) : nat :=
  fold_left (count_marker cid) evs 0.

(** No [moveToKey] was called. *)
Definition no_navigation (evs : list Event) : Prop :=
  forall v key, ~ In (Issued (MoveToKey v key)) evs.

Definition is_remove (r : Request) : bool :=
  match r with LocationMarkerRemove _ => true | _ => false end.

(** Some pending task still waits for a [locationMarker.remove]. *)
Definition removal_pending (w : World) : bool :=
  existsb (fun s => match s with Susp b _ => existsb is_remove (requests b) end)
          (pending w).

(** The pending tasks resumed one after the other, [order] giving the
    position of each in the list of pending tasks at its turn. *)
Definition resume_all (o : Oracle) (order : list nat) (w : World) : World :=
  fold_left (fun w i => resume o i w) order w.

(** ** Concrete collaborators and worlds *)

(** [{ features: [ { properties: { key } } ] }] *)
Definition one_feature (key : string) : JSON :=
  JObj [("features"%string,
         JArr [JObj [("properties"%string,
                      JObj [("key"%string, JStr key)])]])].

(** Collaborators that never fail: the image index answers [data], the
    viewer stands at (1, 2) looking east. *)
Definition answering (data : JSON) : Oracle := fun r =>
  match r as r0 return Outcome (reply r0) with
  | Fetch _ => Resolved 7
  | ResponseJson _ => Resolved data
  | GetPosition _ => Resolved {| lat := 1; lon := 2 |}
  | GetPointOfView _ => Resolved {| bearing := 90; pov_tilt := 0 |}
  | GetFieldOfView _ => Resolved 55%float
  | MoveToKey _ _ => Resolved tt
  | LocationMarkerCreate _ => Resolved tt
  | LocationMarkerUpdate _ => Resolved tt
  | LocationMarkerRemove _ => Resolved tt
  | ZoomToViewpoint _ => Resolved tt
  end.

(** The same, with a viewer whose [getPointOfView()] is rejected. *)
Definition pov_failing (data : JSON) : Oracle := fun r =>
  match r as r0 return Outcome (reply r0) with
  | GetPointOfView _ => Rejected (Failure 0)
  | r0 => answering data r0
  end.

(** The same as [answering], with an image index that is unreachable. *)
Definition fetch_failing : Oracle := fun r =>
  match r as r0 return Outcome (reply r0) with
  | Fetch _ => Rejected (Failure 1)
  | r0 => answering JNull r0
  end.

(** Every map of the host has its view, centred at (10, 20). *)
Definition ready_views : MapModel -> option View :=
  fun _ => Some {| center := {| pt_latitude := 10; pt_longitude := 20 |} |}.

Definition fresh_world : World :=
  new_world (new_model "mapillary") ready_views.

(** The host injects map 5. *)
Definition map_attached : World := set_map (Some 5) fresh_world.

(** Viewer 1 is assigned: the first synchronisation starts and waits for
    the image index. *)
Definition viewer_assigned : World :=
  world_of (set_mapillary (Some 1) map_attached).

(** Its five awaits settle: the model is synced and its marker exists. *)
Definition synced_world : World :=
  resume_all (answering (one_feature "abc")) [0; 0; 0; 0; 0] viewer_assigned.

(** Viewer 2 replaces viewer 1 while the first synchronisation still waits
    for the image index. The pending tasks are then: the first
    synchronisation, the removal, the second synchronisation. *)
Definition viewer_replaced_early : World :=
  world_of (set_mapillary (Some 2) viewer_assigned).

(** The removal settles, then the first synchronisation runs to its end,
    then the second. *)
Definition overlapping_syncs : World :=
  resume_all (answering (one_feature "abc"))
             [1; 0; 1; 1; 1; 1; 0; 0; 0; 0; 0] viewer_replaced_early.

(** The map is cleared while the first synchronisation still waits for the
    image index. The pending tasks are then: the synchronisation, the
    removal. *)
Definition map_cleared_early : World := set_map None viewer_assigned.

(** The removal settles. *)
Definition map_cleared_unsynced : World :=
  resume_all (answering (one_feature "abc")) [1] map_cleared_early.

(** Then the synchronisation runs to its end. *)
Definition map_cleared_done : World :=
  resume_all (answering (one_feature "abc")) [0; 0; 0; 0; 0]
             map_cleared_unsynced.

(** ** The life of a model *)

(** The host replaces [map.view] of a map. *)
Definition with_view (f : MapModel -> option View) (w : World) : World :=
  {| self := self w; view := f; log := log w; pending := pending w;
     next_handle := next_handle w |}.

(** What can happen to a model, one turn of the event loop at a time. *)
Inductive Action :=
| AssignViewer (instance : option Viewer)      (* model.mapillary = instance *)
| AssignMap (instance : option MapModel)       (* model.map = instance *)
| ViewReplaced (views : MapModel -> option View)
| WatchFires (vw : option View)                (* the callback of [watch] *)
| NodeChanged (through : bool) (node : Node)   (* the viewer's nodechanged *)
| PovChanged                                   (* povchanged, throttle open *)
| MarkerUpdated (event : MarkerEvent)          (* locationMarker.updated *)
| Recenter                                     (* model.recenter() *)
| MoveCloseTo (latitude longitude : float)     (* model.moveCloseToPosition() *)
| Settles (o : Oracle) (i : nat)               (* a pending task resumes *)
| Destroy.

Definition perform (w : World) (a : Action) : World :=
  match a with
  | AssignViewer instance => world_of (set_mapillary instance w)
  | AssignMap instance => set_map instance w
  | ViewReplaced views => with_view views w
  | WatchFires vw => world_of (on_map_view vw w)
  | NodeChanged through node => world_of (_onNodeChange through node w)
  | PovChanged => spawn _onPerspectiveChange w
  | MarkerUpdated event => modify (_handleViewerUpdate event) w
  | Recenter => spawn recenter w
  | MoveCloseTo latitude longitude =>
      spawn (moveCloseToPosition latitude longitude) w
  | Settles o i => resume o i w
  | Destroy => _onDestroy w
  end.

(** The world after a history, from a model just constructed. *)
Definition after (cid : string) (views : MapModel -> option View)
    (history : list Action) : World :=
  fold_left perform history (new_world (new_model cid) views).

(** An assignment that leaves the handles and [_synced] alone. *)
Definition stable (m m' : MapillaryModel) : Prop :=
  _synced m' = _synced m /\
  _map m' = _map m /\
  _mapillary m' = _mapillary m /\
  _viewerUpdateHandle m' = _viewerUpdateHandle m /\
  _awaitViewHandle m' = _awaitViewHandle m.

(** A call that neither registers nor removes a handle. *)
Definition quiet (ev : Event) : Prop :=
  match ev with
  | Subscribe _ | Watch _ | HandleRemove _ => False
  | _ => True
  end.

(** [tame true p]: every assignment of [p] is [stable] and every call
    [quiet]. [tame false p]: the same from the first [await] of [p] on,
    the assignments before it being free. *)
Fixpoint tame (strict : bool) {A} (p : Async A) : Prop :=
  match p with
  | Ret _ | Throw _ => True
  | Read k => forall m, tame strict (k m)
  | Update f k =>
      (if strict then forall m, stable m (f m) else True) /\ tame strict k
  | ViewOf _ k => forall vw, tame strict (k vw)
  | Call ev k => quiet ev /\ tame strict k
  | Await _ k => forall o, tame true (k o)
  end.

(** The subscriptions to [locationMarker.updated] that have been made and
    not removed, after the events [evs]. *)
Definition count_subscription (live : list Handle) (ev : Event) : list Handle :=
  match ev with
  | Subscribe h => h :: live
  | HandleRemove h => filter (fun h' => negb (Nat.eqb h' h)) live
  | _ => live
  end.

Definition live_subscriptions (evs : list Event) : list Handle :=
  fold_left count_subscription evs [].

(** Every pending task is tame from where it resumes. *)
Definition pending_tame (w : World) : Prop :=
  Forall (fun s => match s with Susp _ k => forall o, tame true (k o) end)
         (pending w).

(** A synced model has its map and its viewer. *)
Definition synced_with_both (m : MapillaryModel) : Prop :=
  _synced m = true -> _map m <> None /\ _mapillary m <> None.

(** At most one subscription is live, and the model holds its handle. *)
Definition one_subscription (w : World) : Prop :=
  live_subscriptions (log w) = [] \/
  exists h, live_subscriptions (log w) = [h] /\
            _viewerUpdateHandle (self w) = Some h.

Definition invariant (w : World) : Prop :=
  pending_tame w /\ synced_with_both (self w) /\ one_subscription w.

Arguments imgKey_of : simpl never.
Arguments truthy : simpl never.

Ltac methods :=
  unfold recenter, _syncMaps, _onPerspectiveChange, _unsyncMaps,
    moveCloseToPosition, _getMapillaryCamera, _activateCover, the_mapillary,
    destructure, zoom_if_synchronizing, zoomToViewpoint, await,
    await_finally, assign, call, this, events_of, clear_log, settled in *.

Ltac break_match :=
  match goal with
  | |- context [match ?x with _ => _ end] => destruct x eqn:?
  | H : context [match ?x with _ => _ end] |- _ => destruct x eqn:?
  end.

Ltac invert_outcomes :=
  repeat match goal with
  | H : Resolved _ = Resolved _ |- _ => inversion H; clear H; subst
  | H : Rejected _ = Rejected _ |- _ => inversion H; clear H; subst
  | H : (_, _) = (_, _) |- _ => inversion H; clear H; subst
  | H : Resolved _ = Rejected _ |- _ => discriminate H
  | H : Rejected _ = Resolved _ |- _ => discriminate H
  end.

Ltac search_log :=
  repeat match goal with
  | H : In _ _ |- _ => simpl in H
  | H : _ \/ _ |- _ => destruct H
  | H : False |- _ => destruct H
  end;
  try discriminate.

Ltac zoom_found :=
  match goal with
  | H : Issued (ZoomToViewpoint _) = Issued (ZoomToViewpoint _) |- _ =>
      injection H as <-; invert_outcomes; simpl;
      do 2 eexists; repeat split; eauto
  end.

Ltac create_found :=
  match goal with
  | H : Issued (LocationMarkerCreate _) = Issued (LocationMarkerCreate _) |- _ =>
      injection H as <-; invert_outcomes; simpl;
      repeat split; try reflexivity;
      do 3 eexists; repeat split; eauto
  end.

Ltac zoom_with_marker :=
  match goal with
  | H : Issued (ZoomToViewpoint _) = Issued (ZoomToViewpoint _) |- _ =>
      injection H as <-; invert_outcomes; simpl;
      repeat split; try reflexivity;
      eexists; split; [repeat (first [left; reflexivity | right])|reflexivity]
  end.

Ltac tame_steps :=
  repeat (simpl; intros;
          try break_match;
          repeat match goal with
          | |- _ /\ _ => split
          | |- True => exact I
          | |- stable _ _ => unfold stable; simpl; repeat split; reflexivity
          end).

(** * Properties *)

Unset Implicit Arguments.

Section Runs.

Variable o : Oracle.





Lemma run_bind {A B} (p : Async A) (f : A -> Async B) : forall w,
  run o (bind p f) w =
  match run o p w with
  | (Resolved a, w') => run o (f a) w'
  | (Rejected e, w') => (Rejected e, w')
  end.
Proof.
  induction p as [a|e|k IH|g k IH|m k IH|ev k IH|T b k IH]; intros w; simpl;
    auto.
Qed.

Lemma run_try_catch {A} (p : Async A) (h : Error -> Async A) : forall w,
  run o (try_catch p h) w =
  match run o p w with
  | (Resolved a, w') => (Resolved a, w')
  | (Rejected e, w') => run o (h e) w'
  end.
Proof.
  induction p as [a|e|k IH|g k IH|m k IH|ev k IH|T b k IH]; intros w; simpl;
    auto.
Qed.

(** [run] is [advance] repeated: the two readings of a method agree. *)
Lemma run_advance {A} (p : Async A) : forall w,
  run o p w =
  match advance p w with
  | (Finished r, w') => (r, w')
  | (Waiting b k, w') => run o (k (settle o b)) (record (settled o b) w')
  end.
Proof.
  induction p as [a|e|k IH|g k IH|m k IH|ev k IH|T b k IH]; intros w; simpl;
    auto.
  f_equal. unfold record; simpl. now rewrite app_assoc.
Qed.

End Runs.

(** ** The marker-update handler *)

(** C8. A marker-update event delivered while the echo of the model's own
    update is to be suppressed ([_handleMarkerUpdate] is false) changes
    nothing but that flag: [currentMarkerPosition] keeps its value, the
    flag is reset, and the next event is recorded. *)
Theorem suppressed_marker_update_is_ignored
    (event next : MarkerEvent) (m : MapillaryModel) :
  _handleMarkerUpdate m = false ->
  _handleViewerUpdate event m = set_handleMarkerUpdate true m /\
  currentMarkerPosition (_handleViewerUpdate event m) = currentMarkerPosition m /\
  _handleMarkerUpdate (_handleViewerUpdate event m) = true /\
  currentMarkerPosition (_handleViewerUpdate next (_handleViewerUpdate event m))
  = Some {| pt_latitude := pt_latitude (geometry next);
            pt_longitude := pt_longitude (geometry next) |}.
Proof.
  intros Hflag. unfold _handleViewerUpdate. rewrite Hflag. simpl.
  repeat split.
Qed.

Lemma suppressed_marker_update_is_ignored_witness :
  let m := set_handleMarkerUpdate false (new_model "mapillary") in
  let event := {| geometry := {| pt_latitude := 3; pt_longitude := 4 |} |} in
  let next := {| geometry := {| pt_latitude := 5; pt_longitude := 6 |} |} in
  currentMarkerPosition (_handleViewerUpdate event m) = None /\
  currentMarkerPosition (_handleViewerUpdate next (_handleViewerUpdate event m))
  = Some {| pt_latitude := 5; pt_longitude := 6 |}.
Proof.
  intros m event next.
  destruct (suppressed_marker_update_is_ignored event next m eq_refl)
    as (_ & Hkeep & _ & Hnext).
  split; [exact Hkeep | exact Hnext].
Defined.

(** ** Resolving the camera *)

(** C2. With no viewer attached the camera resolves to [undefined], and
    [recenter] issues no command and changes nothing; but it does not
    complete: destructuring the [undefined] camera rejects its promise with
    a [TypeError]. *)
Theorem recenter_without_viewer_rejects (o : Oracle) (w : World) :
  _mapillary (self w) = None ->
  run o _getMapillaryCamera w = (Resolved None, w) /\
  run o recenter w = (Rejected TypeError, w).
Proof.
  intros Hnone. methods. simpl. rewrite Hnone. simpl. split; reflexivity.
Qed.

Lemma recenter_without_viewer_rejects_witness :
  run (answering JNull) recenter map_attached = (Rejected TypeError, map_attached).
Proof.
  exact (proj2 (recenter_without_viewer_rejects (answering JNull) map_attached eq_refl)).
Defined.

(** C7. With a merged position [P] cached, any camera resolved has the
    latitude and longitude of [P], and [getPosition()] is not even called,
    whatever the viewer would have answered; with a viewer attached whose
    point of view and field of view are answered, a camera is resolved. *)
Theorem cached_position_is_used (o : Oracle) (w : World) (P : LatLon) :
  _currentNodePosition (self w) = Some P ->
  (forall c, fst (run o _getMapillaryCamera w) = Resolved (Some c) ->
             latitude c = lat P /\ longitude c = lon P) /\
  (forall v, ~ In (Issued (GetPosition v)) (events_of o _getMapillaryCamera w)) /\
  (forall v pov f,
     _mapillary (self w) = Some v ->
     o (GetPointOfView v) = Resolved pov ->
     o (GetFieldOfView v) = Resolved f ->
     fst (run o _getMapillaryCamera w)
     = Resolved (Some {| latitude := lat P; longitude := lon P;
                         heading := bearing pov;
                         tilt := (pov_tilt pov + 90)%float;
                         fov := f |})).
Proof.
  intros HP. methods. simpl. rewrite HP.
  split; [|split].
  - intros c. destruct (_mapillary (self w)) as [v|]; simpl.
    + destruct (o (GetPointOfView v)) as [pov|]; simpl;
        destruct (o (GetFieldOfView v)); simpl; try discriminate.
      intros [= <-]. split; reflexivity.
    + discriminate.
  - intros v'. destruct (_mapillary (self w)) as [v|]; simpl.
    + destruct (o (GetPointOfView v)) as [pov|]; simpl;
        destruct (o (GetFieldOfView v)); simpl;
        intros [H|[H|[H|[H|[]]]]]; discriminate.
    + intros [].
  - intros v pov f Hv Hpov Hfov. rewrite Hv. simpl. rewrite Hpov, Hfov.
    reflexivity.
Qed.

Lemma cached_position_is_used_witness :
  let P := {| lat := 48; lon := 11 |} in
  let w := modify (set_currentNodePosition (Some P)) synced_world in
  fst (run (answering JNull) _getMapillaryCamera w)
  = Resolved (Some {| latitude := 48; longitude := 11; heading := 90;
                      tilt := 90; fov := 55 |}).
Proof.
  intros P w.
  exact (proj2 (proj2 (cached_position_is_used (answering JNull) w P eq_refl))
           1 {| bearing := 90; pov_tilt := 0 |} 55%float
           eq_refl eq_refl eq_refl).
Defined.

(** ** Finding the nearest image *)

(** With a viewer attached, the method clears [updating] and its promise
    is fulfilled, whatever the collaborators do. *)
Lemma moveCloseToPosition_settles (o : Oracle) (w : World) (v : Viewer)
    (latitude longitude : float) :
  _mapillary (self w) = Some v ->
  fst (run o (moveCloseToPosition latitude longitude) w) = Resolved tt /\
  self (snd (run o (moveCloseToPosition latitude longitude) w))
  = set_updating false (self w).
Proof.
  intros Hv. destruct w as [m vw lg pd nh]. destruct m. simpl in Hv. subst.
  methods. unfold query_url. simpl.
  repeat (break_match; simpl); split; reflexivity.
Qed.

(** C10. Provided a viewer is attached, the promise of
    [moveCloseToPosition] is fulfilled however the fetch, the parsing of
    the body and [moveToKey] end, and whatever the shape of the answer. *)
Theorem moveCloseToPosition_never_rejects (o : Oracle) (w : World)
    (v : Viewer) (latitude longitude : float) :
  _mapillary (self w) = Some v ->
  fst (run o (moveCloseToPosition latitude longitude) w) = Resolved tt.
Proof.
  intros Hv. exact (proj1 (moveCloseToPosition_settles o w v latitude longitude Hv)).
Qed.

Lemma moveCloseToPosition_never_rejects_witness :
  fst (run fetch_failing (moveCloseToPosition 10 20) synced_world) = Resolved tt.
Proof.
  exact (moveCloseToPosition_never_rejects fetch_failing synced_world
           1 10%float 20%float eq_refl).
Defined.

(** With no feature in the answer there is no key. *)
Lemma no_feature_no_key (fields : list (string * JSON)) :
  lookup "features" fields = Some (JArr []) ->
  truthy (imgKey_of (JObj fields)) = false.
Proof.
  intros H. unfold imgKey_of. simpl. rewrite H. reflexivity.
Qed.

(** The key of the first feature of an answer of the expected shape. *)
Lemma first_feature_key (fields ffields props : list (string * JSON))
    (rest : list JSON) (key : JSON) :
  lookup "features" fields = Some (JArr (JObj ffields :: rest)) ->
  lookup "properties" ffields = Some (JObj props) ->
  lookup "key" props = Some key ->
  imgKey_of (JObj fields) = Some key.
Proof.
  intros Hf Hp Hk. unfold imgKey_of. simpl. rewrite Hf. simpl. rewrite Hp.
  simpl. exact Hk.
Qed.

(** C6, as the code has it. With a viewer attached, [updating] is false
    after [moveCloseToPosition] in every case. When the query succeeds and
    the key of the first feature, [data?.features?.[0]?.properties?.key],
    is truthy, [moveToKey] is called with it. When the query succeeds and
    that key is missing or falsy (no feature at all, or a first feature
    with no key or an empty one), or when the fetch or the parsing fails,
    the cover is activated and [moveToKey] is not called. An answer with
    no feature has no key; in an answer of the expected shape, a non-empty
    string as the key of the first feature is a truthy key. *)
Theorem moveCloseToPosition_outcomes (o : Oracle) (w : World) (v : Viewer)
    (latitude longitude : float) :
  _mapillary (self w) = Some v ->
  let url := query_url (self w) latitude longitude in
  let evs := events_of o (moveCloseToPosition latitude longitude) w in
  updating (self (snd (run o (moveCloseToPosition latitude longitude) w)))
  = false /\
  (forall resp data,
     o (Fetch url) = Resolved resp ->
     o (ResponseJson resp) = Resolved data ->
     truthy (imgKey_of data) = true ->
     In (Issued (MoveToKey v (imgKey_of data))) evs) /\
  (forall resp data,
     o (Fetch url) = Resolved resp ->
     o (ResponseJson resp) = Resolved data ->
     truthy (imgKey_of data) = false ->
     In (ActivateCover v) evs /\ no_navigation evs) /\
  (forall resp e,
     o (Fetch url) = Resolved resp ->
     o (ResponseJson resp) = Rejected e ->
     In (ActivateCover v) evs /\ no_navigation evs) /\
  (forall e,
     o (Fetch url) = Rejected e ->
     In (ActivateCover v) evs /\ no_navigation evs) /\
  (forall fields,
     lookup "features" fields = Some (JArr []) ->
     truthy (imgKey_of (JObj fields)) = false) /\
  (forall fields ffields props rest c key,
     lookup "features" fields = Some (JArr (JObj ffields :: rest)) ->
     lookup "properties" ffields = Some (JObj props) ->
     lookup "key" props = Some (JStr (String c key)) ->
     imgKey_of (JObj fields) = Some (JStr (String c key)) /\
     truthy (imgKey_of (JObj fields)) = true).
Proof.
  intros Hv url evs.
  assert (Hshapes :
    (forall fields,
       lookup "features" fields = Some (JArr []) ->
       truthy (imgKey_of (JObj fields)) = false) /\
    (forall fields ffields props rest c key,
       lookup "features" fields = Some (JArr (JObj ffields :: rest)) ->
       lookup "properties" ffields = Some (JObj props) ->
       lookup "key" props = Some (JStr (String c key)) ->
       imgKey_of (JObj fields) = Some (JStr (String c key)) /\
       truthy (imgKey_of (JObj fields)) = true)).
  { split.
    - exact no_feature_no_key.
    - intros fields ffields props rest c key Hf Hp Hk.
      rewrite (first_feature_key fields ffields props rest _ Hf Hp Hk).
      split; reflexivity. }
  cut (updating
         (self (snd (run o (moveCloseToPosition latitude longitude) w)))
       = false /\
       (forall resp data,
          o (Fetch url) = Resolved resp ->
          o (ResponseJson resp) = Resolved data ->
          truthy (imgKey_of data) = true ->
          In (Issued (MoveToKey v (imgKey_of data))) evs) /\
       (forall resp data,
          o (Fetch url) = Resolved resp ->
          o (ResponseJson resp) = Resolved data ->
          truthy (imgKey_of data) = false ->
          In (ActivateCover v) evs /\ no_navigation evs) /\
       (forall resp e,
          o (Fetch url) = Resolved resp ->
          o (ResponseJson resp) = Rejected e ->
          In (ActivateCover v) evs /\ no_navigation evs) /\
       (forall e,
          o (Fetch url) = Rejected e ->
          In (ActivateCover v) evs /\ no_navigation evs)).
  { tauto. }
  clear Hshapes.
  split.
  { rewrite (proj2 (moveCloseToPosition_settles o w v latitude longitude Hv)).
    reflexivity. }
  subst url evs. destruct w as [m vw lg pd nh]. destruct m. simpl in Hv. subst.
  methods. unfold query_url, no_navigation. simpl.
  split; [|split; [|split]].
  - intros resp data Hf Hj Hk. rewrite Hf. simpl. rewrite Hj. simpl.
    rewrite Hk. simpl.
    destruct (o (MoveToKey v (imgKey_of data))); simpl; tauto.
  - intros resp data Hf Hj Hk. rewrite Hf. simpl. rewrite Hj. simpl.
    rewrite Hk. simpl. split; [tauto|].
    intros v' key Hin. search_log.
  - intros resp e Hf Hj. rewrite Hf. simpl. rewrite Hj. simpl.
    split; [tauto|].
    intros v' key Hin. search_log.
  - intros e Hf. rewrite Hf. simpl. split; [tauto|].
    intros v' key Hin. search_log.
Qed.

Lemma moveCloseToPosition_outcomes_witness :
  let o := answering (one_feature "abc") in
  updating (self (snd (run o (moveCloseToPosition 10 20) synced_world)))
  = false /\
  In (Issued (MoveToKey 1 (Some (JStr "abc"))))
     (events_of o (moveCloseToPosition 10 20) synced_world).
Proof.
  intros o.
  destruct (moveCloseToPosition_outcomes o synced_world 1 10%float 20%float
              eq_refl)
    as (Hupd & Hnav & _).
  split.
  - exact Hupd.
  - exact (Hnav 7 (one_feature "abc") eq_refl eq_refl eq_refl).
Defined.

(** C6, as the claim has it, fails: the answer has a feature, whose key is
    the empty string; the cover is activated and [moveToKey] is not
    called. *)
Lemma empty_key_is_not_navigated :
  let data := one_feature "" in
  let evs := events_of (answering data) (moveCloseToPosition 10 20) synced_world in
  opt_member "features" (Some data)
  = Some (JArr [JObj [("properties"%string, JObj [("key"%string, JStr "")])]]) /\
  imgKey_of data = Some (JStr "") /\
  In (ActivateCover 1) evs /\
  no_navigation evs.
Proof.
  vm_compute. repeat split; try tauto.
  intros v key [H|[H|[H|[H|[H|[]]]]]]; discriminate.
Qed.

(** ** The rotation sent to the map *)

Lemma getCameraRotationFromBearing_spec (bearing : float) :
  getCameraRotationFromBearing bearing = (360 - bearing)%float.
Proof. reflexivity. Qed.

(** C9. Every [zoomToViewpoint] command sent by the model, from
    [recenter], [_syncMaps] or [_onPerspectiveChange], carries the rotation
    [360 - heading], [heading] being the bearing answered by the viewer. *)
Theorem rotation_is_360_minus_heading (o : Oracle) (w : World)
    (p : Async unit) (a : ZoomArgs) :
  In p [recenter; _syncMaps; _onPerspectiveChange] ->
  In (Issued (ZoomToViewpoint a)) (events_of o p w) ->
  exists v pov,
    _mapillary (self w) = Some v /\
    o (GetPointOfView v) = Resolved pov /\
    rotation (viewpoint a) = (360 - bearing pov)%float.
Proof.
  intros Hp Hin.
  destruct w as [m vw lg pd nh]. destruct m.
  destruct Hp as [<-|[<-|[<-|[]]]]; methods; unfold query_url in *;
    simpl in *;
    repeat (break_match; simpl in *); search_log; zoom_found.
Qed.

Lemma rotation_is_360_minus_heading_witness :
  exists v pov,
    _mapillary (self synced_world) = Some v /\
    answering JNull (GetPointOfView v) = Resolved pov /\
    (270 = 360 - bearing pov)%float.
Proof.
  apply (rotation_is_360_minus_heading (answering JNull) synced_world
           recenter
           {| z_maps := Some 5;
              viewpoint := {| rotation := 270;
                              targetGeometry := {| pt_latitude := 1;
                                                   pt_longitude := 2 |};
                              scale := 3000 |} |}).
  - left. reflexivity.
  - vm_compute. do 6 right. left. reflexivity.
Defined.

(** ** The point-of-view cycle *)

(** Once the camera is resolved, [updating] is cleared however the pair of
    commands ends. *)
Lemma pair_outcome_clears_updating (o : Oracle) (w : World) (v : Viewer)
    (mp : MapModel) (P : LatLon) (pov : PointOfView) (f : float) :
  _map (self w) = Some mp ->
  _mapillary (self w) = Some v ->
  updating (self w) = false ->
  _currentNodePosition (self w) = Some P ->
  o (GetPointOfView v) = Resolved pov ->
  o (GetFieldOfView v) = Resolved f ->
  updating (self (snd (run o _onPerspectiveChange w))) = false.
Proof.
  intros Hmap Hv Hupd HP Hpov Hfov.
  destruct w as [m vw lg pd nh]. destruct m. simpl in *. subst.
  methods. simpl. rewrite Hpov, Hfov. simpl.
  repeat (break_match; simpl); reflexivity.
Qed.

(** A call that finds [updating] set is dropped. *)
Lemma cycle_dropped_while_updating (o : Oracle) (w : World) :
  updating (self w) = true ->
  run o _onPerspectiveChange w = (Resolved tt, w).
Proof.
  intros Hupd. methods. simpl. rewrite Hupd.
  destruct (_map (self w)), (_mapillary (self w)); reflexivity.
Qed.

(** A cycle whose [getPointOfView()] is rejected ends rejected, having
    only set [updating]. *)
Lemma cycle_with_failing_camera (o : Oracle) (w : World) (v : Viewer)
    (mp : MapModel) (e : Error) :
  _map (self w) = Some mp ->
  _mapillary (self w) = Some v ->
  updating (self w) = false ->
  o (GetPointOfView v) = Rejected e ->
  (exists e', fst (run o _onPerspectiveChange w) = Rejected e') /\
  self (snd (run o _onPerspectiveChange w)) = set_updating true (self w).
Proof.
  intros Hmap Hv Hupd Hpov. methods. simpl.
  rewrite Hmap, Hv, Hupd. simpl. rewrite Hv. simpl.
  destruct (_currentNodePosition (self w)) as [P|]; simpl; rewrite Hpov.
  - destruct (o (GetFieldOfView v)); simpl; eauto.
  - destruct (o (GetPosition v)); destruct (o (GetFieldOfView v)); simpl; eauto.
Qed.

(** C3 fails when the camera cannot be resolved. The cycle has set
    [updating]; [getPointOfView()] is rejected; the cycle ends there,
    rejected, with [updating] still true, and the next cycle is dropped. *)
Theorem camera_failure_leaves_updating_set (o next : Oracle) (w : World)
    (v : Viewer) (mp : MapModel) (e : Error) :
  _map (self w) = Some mp ->
  _mapillary (self w) = Some v ->
  updating (self w) = false ->
  o (GetPointOfView v) = Rejected e ->
  let w' := snd (run o _onPerspectiveChange w) in
  (exists e', fst (run o _onPerspectiveChange w) = Rejected e') /\
  updating (self w') = true /\
  run next _onPerspectiveChange w' = (Resolved tt, w').
Proof.
  intros Hmap Hv Hupd Hpov w'.
  destruct (cycle_with_failing_camera o w v mp e Hmap Hv Hupd Hpov)
    as (Hrejected & Hself).
  assert (Hset : updating (self w') = true)
    by (subst w'; rewrite Hself; reflexivity).
  split; [exact Hrejected|].
  split; [exact Hset|].
  apply cycle_dropped_while_updating. exact Hset.
Qed.

Lemma camera_failure_leaves_updating_set_witness :
  let o := pov_failing JNull in
  fst (run o _onPerspectiveChange synced_world) = Rejected (Failure 0) /\
  updating (self (snd (run o _onPerspectiveChange synced_world))) = true.
Proof.
  intros o.
  destruct (camera_failure_leaves_updating_set o o synced_world
              1 5 (Failure 0) eq_refl eq_refl eq_refl eq_refl)
    as (_ & Hupd & _).
  split; [reflexivity | exact Hupd].
Defined.

(** ** Assigning the viewer and the map *)

(** [_syncMaps] does nothing while the map or the viewer is absent. *)
Lemma _syncMaps_waits_for_both (o : Oracle) (w : World) :
  _map (self w) = None \/ _mapillary (self w) = None ->
  run o _syncMaps w = (Resolved tt, w) /\ spawn _syncMaps w = w.
Proof.
  intros Habsent. unfold spawn. methods. simpl.
  destruct Habsent as [H|H]; rewrite H; simpl.
  - split; reflexivity.
  - destruct (_map (self w)); split; reflexivity.
Qed.

(** C1 fails in the setter itself. Assigning a viewer while no map is
    attached stores the viewer and then reads [this.map.view] on the
    [undefined] map: the assignment throws a [TypeError]. *)
Theorem set_mapillary_without_map_throws (w : World) (v : Viewer) :
  _map (self w) = None ->
  _synced (self w) = false ->
  same_instance (Some v) (_mapillary (self w)) = false ->
  exists w',
    set_mapillary (Some v) w = Abrupt TypeError w' /\
    _mapillary (self w') = Some v.
Proof.
  intros Hmap Hsynced Hother.
  unfold set_mapillary. rewrite Hother.
  unfold set_mapillary_cleanup, set_mapillary_attach, remove_handle, spawn.
  methods.
  destruct w as [m vw lg pd nh]. destruct m. simpl in *. subst.
  repeat (break_match; simpl in * ); try discriminate;
    invert_outcomes; eexists; split; reflexivity.
Qed.

Lemma set_mapillary_without_map_throws_witness :
  exists w',
    set_mapillary (Some 1) fresh_world = Abrupt TypeError w' /\
    _mapillary (self w') = Some 1.
Proof.
  exact (set_mapillary_without_map_throws fresh_world 1
           eq_refl eq_refl eq_refl).
Defined.

(** A method does not touch the tasks that are pending. *)
Lemma advance_pending {A} (p : Async A) : forall w,
  pending (snd (advance p w)) = pending w.
Proof.
  induction p as [a|e|k IH|f k IH|m k IH|ev k IH|T b k IH]; intros w; simpl;
    auto.
  - now rewrite IH.
  - now rewrite IH.
Qed.

Lemma spawn_keeps_removal_pending (p : Async unit) (w : World) :
  removal_pending w = true -> removal_pending (spawn p w) = true.
Proof.
  unfold removal_pending, spawn. intros Hw.
  pose proof (advance_pending p w) as Hp.
  destruct (advance p w) as [[[x|e]|T b k] w']; simpl in *.
  - now rewrite Hp.
  - now rewrite Hp.
  - rewrite existsb_app, Hp, Hw. reflexivity.
Qed.

(** What starting [_unsyncMaps] does before it is suspended. *)
Lemma spawn_unsyncMaps (w : World) :
  self (spawn _unsyncMaps w) = set_synced false (self w) /\
  log (spawn _unsyncMaps w)
  = log w ++ [Issued (LocationMarkerRemove {| r_id := id (self w);
                                              r_maps := _map (self w) |})] /\
  removal_pending (spawn _unsyncMaps w) = true.
Proof.
  unfold spawn, removal_pending. methods. simpl.
  repeat split. rewrite existsb_app. simpl. apply orb_true_r.
Qed.

(** Starting [_syncMaps] leaves the handles as they are. *)
Lemma spawn_syncMaps_handles (w : World) :
  _mapillary (self (spawn _syncMaps w)) = _mapillary (self w) /\
  _map (self (spawn _syncMaps w)) = _map (self w).
Proof.
  destruct w as [m vw lg pd nh]. destruct m.
  unfold spawn. methods. unfold query_url. simpl.
  repeat (break_match; simpl in * ); invert_outcomes; split; reflexivity.
Qed.

Lemma attach_keeps (instance : option Viewer) (w : World) :
  _mapillary (self (world_of (set_mapillary_attach instance w)))
  = _mapillary (self w) /\
  (removal_pending w = true ->
   removal_pending (world_of (set_mapillary_attach instance w)) = true).
Proof.
  unfold set_mapillary_attach.
  destruct instance as [v|]; simpl;
    repeat (break_match; simpl);
    rewrite ?(proj1 (spawn_syncMaps_handles _));
    (split; [reflexivity|]); intros Hw;
    try apply spawn_keeps_removal_pending; exact Hw.
Qed.

Lemma cleanup_shape (w : World) (old : Viewer) :
  _mapillary (self w) = Some old ->
  set_mapillary_cleanup w
  = spawn _unsyncMaps
      (emit (ActivateCover old)
         (emit (Off old povchanged)
            (emit (Off old nodechanged)
               (remove_handle (_viewerUpdateHandle (self w)) w)))).
Proof.
  intros Hold. unfold set_mapillary_cleanup.
  replace (_mapillary (self (remove_handle (_viewerUpdateHandle (self w)) w)))
    with (Some old)
    by (destruct (_viewerUpdateHandle (self w)); simpl; now rewrite Hold).
  reflexivity.
Qed.

(** The whole of [set map] when a map is replaced or cleared. *)
Lemma set_map_after_unsync (w : World) (old : MapModel)
    (instance : option MapModel) :
  _map (self w) = Some old ->
  same_instance instance (Some old) = false ->
  _synced (self (set_map instance w)) = false /\
  log (set_map instance w)
  = log w ++ [Issued (LocationMarkerRemove
                        {| r_id := id (self w); r_maps := Some old |});
              Watch (next_handle w)] /\
  self (set_map instance w)
  = set_awaitViewHandle (Some (next_handle w))
      (set__map instance (set_synced false (self w))).
Proof.
  intros Hold Hother. unfold set_map, set_map_cleanup.
  rewrite Hold, Hother. unfold spawn. methods. simpl.
  rewrite Hold, <- app_assoc. repeat split.
Qed.

(** The whole of [set mapillary] when a viewer is replaced or cleared:
    what follows the start of [_unsyncMaps]. *)
Lemma set_mapillary_after_unsync (w : World) (old : Viewer)
    (instance : option Viewer) :
  _mapillary (self w) = Some old ->
  same_instance instance (Some old) = false ->
  log (world_of (set_mapillary instance w))
  = log (set_mapillary_cleanup w)
    ++ match instance with
       | Some v => [On v nodechanged; Subscribe (next_handle w)]
       | None => []
       end
    ++ match instance, _map (self w) with
       | Some _, Some mp =>
           match view w mp with
           | Some vw => [Issued (Fetch (query_url (self w)
                                          (pt_latitude (center vw))
                                          (pt_longitude (center vw))))]
           | None => []
           end
       | _, _ => []
       end /\
  _synced (self (world_of (set_mapillary instance w)))
  = match instance, _map (self w) with
    | Some _, Some mp =>
        match view w mp with Some _ => true | None => false end
    | _, _ => false
    end.
Proof.
  intros Hold Hother.
  destruct w as [m vw lg pd nh]. destruct m. simpl in *. subst.
  unfold set_mapillary, set_mapillary_cleanup, set_mapillary_attach,
    remove_handle, spawn.
  simpl. rewrite Hother.
  destruct _viewerUpdateHandle0 as [h|], instance as [v|], _map0 as [mp|];
    methods; unfold query_url; simpl;
    try (destruct (vw mp) as [theview|]; simpl);
    repeat rewrite <- app_assoc; simpl; split; reflexivity.
Qed.

(** C4, as the code has it. When a handle is replaced or cleared and a
    previous one was present, [_unsyncMaps] is started before the field is
    written: the model is marked not synced and the removal of the marker
    is commanded, for [set map] with the previous map. It is not awaited:
    the field is written while the removal is still pending. Of the
    setter as a whole: [set map] leaves the model not synced, and its log
    is the removal, commanded with the previous map, and then the new
    watch; [set mapillary] detaches the previous viewer and commands the
    removal before it attaches the new viewer, and leaves the model synced
    again only when a new synchronisation has started (a viewer assigned,
    the map and its view there). *)
Theorem unsync_is_started_not_awaited (w : World) :
  (forall (old : MapModel) (instance : option MapModel),
     _map (self w) = Some old ->
     same_instance instance (Some old) = false ->
     let before := set_map_cleanup w in
     let after := set_map instance w in
     _map (self before) = Some old /\
     _synced (self before) = false /\
     log before = log w ++ [Issued (LocationMarkerRemove
                                      {| r_id := id (self w);
                                         r_maps := Some old |})] /\
     removal_pending before = true /\
     _map (self after) = instance /\
     removal_pending after = true /\
     _synced (self after) = false /\
     log after = log w ++ [Issued (LocationMarkerRemove
                                     {| r_id := id (self w);
                                        r_maps := Some old |});
                           Watch (next_handle w)] /\
     self after = set_awaitViewHandle (Some (next_handle w))
                    (set__map instance (set_synced false (self w)))) /\
  (forall (old : Viewer) (instance : option Viewer),
     _mapillary (self w) = Some old ->
     same_instance instance (Some old) = false ->
     let before := set_mapillary_cleanup w in
     let after := world_of (set_mapillary instance w) in
     _mapillary (self before) = Some old /\
     _synced (self before) = false /\
     log before = log (remove_handle (_viewerUpdateHandle (self w)) w)
                  ++ [Off old nodechanged; Off old povchanged;
                      ActivateCover old;
                      Issued (LocationMarkerRemove
                                {| r_id := id (self w);
                                   r_maps := _map (self w) |})] /\
     removal_pending before = true /\
     _mapillary (self after) = instance /\
     removal_pending after = true /\
     log after
     = log before
       ++ match instance with
          | Some v => [On v nodechanged; Subscribe (next_handle w)]
          | None => []
          end
       ++ match instance, _map (self w) with
          | Some _, Some mp =>
              match view w mp with
              | Some vw => [Issued (Fetch (query_url (self w)
                                             (pt_latitude (center vw))
                                             (pt_longitude (center vw))))]
              | None => []
              end
          | _, _ => []
          end /\
     _synced (self after)
     = match instance, _map (self w) with
       | Some _, Some mp =>
           match view w mp with Some _ => true | None => false end
       | _, _ => false
       end).
Proof.
  split.
  - intros old instance Hold Hother before after.
    destruct (set_map_after_unsync w old instance Hold Hother)
      as (Hsynced' & Hlog' & Hself').
    destruct (spawn_unsyncMaps w) as (Hself & Hlog & Hpending).
    assert (Hbefore : before = spawn _unsyncMaps w)
      by (subst before; unfold set_map_cleanup; now rewrite Hold).
    assert (Hafter : _map (self after) = instance /\
                     pending after = pending before).
    { subst after. unfold set_map. rewrite Hold, Hother. fold before.
      split; reflexivity. }
    rewrite Hbefore in *. rewrite Hself, Hlog, Hold.
    split; [simpl; exact Hold|]. split; [reflexivity|].
    split; [reflexivity|].
    split; [exact Hpending|]. split; [exact (proj1 Hafter)|].
    split; [unfold removal_pending in *; now rewrite (proj2 Hafter)|].
    split; [exact Hsynced'|]. split; [exact Hlog' | exact Hself'].
  - intros old instance Hold Hother before after.
    destruct (set_mapillary_after_unsync w old instance Hold Hother)
      as (Hlog' & Hsynced').
    pose proof (cleanup_shape w old Hold) as Hshape. fold before in Hshape.
    match type of Hshape with
    | _ = spawn _ ?x => destruct (spawn_unsyncMaps x) as (Hself & Hlog & Hpending)
    end.
    rewrite <- Hshape in *.
    assert (Hstored : after
              = world_of (set_mapillary_attach instance
                            (modify (set__mapillary instance) before))).
    { subst after. unfold set_mapillary. now rewrite Hold, Hother. }
    destruct (attach_keeps instance (modify (set__mapillary instance) before))
      as (Hkept & Hstill).
    split; [rewrite Hself; destruct (_viewerUpdateHandle (self w)); simpl;
            exact Hold|].
    split; [rewrite Hself; reflexivity|].
    split; [rewrite Hlog; destruct (_viewerUpdateHandle (self w)); simpl;
            repeat rewrite <- app_assoc; reflexivity|].
    split; [exact Hpending|].
    split; [rewrite Hstored, Hkept; reflexivity|].
    split; [rewrite Hstored; apply Hstill; exact Hpending|].
    split; [exact Hlog' | exact Hsynced'].
Qed.

Lemma unsync_is_started_not_awaited_witness :
  let before := set_map_cleanup synced_world in
  let after := set_map None synced_world in
  _map (self before) = Some 5 /\
  _synced (self before) = false /\
  removal_pending before = true /\
  _map (self after) = None /\
  removal_pending after = true /\
  _synced (self after) = false /\
  log after
  = log synced_world
    ++ [Issued (LocationMarkerRemove {| r_id := id (self synced_world);
                                        r_maps := Some 5 |});
        Watch (next_handle synced_world)].
Proof.
  intros before after.
  destruct (proj1 (unsync_is_started_not_awaited synced_world)
              5 None eq_refl eq_refl)
    as (Hold & Hsynced & _ & Hbefore & Hnew & Hafter & Hunsynced & Hlog & _).
  exact (conj Hold (conj Hsynced (conj Hbefore (conj Hnew
           (conj Hafter (conj Hunsynced Hlog)))))).
Defined.

(** C4, as the claim has it, fails: the model is synced with map 5 and
    viewer 1, its marker exists, and the map is cleared. When the setter
    returns, the field is [undefined], and the removal has been commanded
    but has not settled: a task still waits for it. *)
Lemma handle_overwritten_while_removal_pending :
  let removal := LocationMarkerRemove {| r_id := "mapillary";
                                         r_maps := Some 5 |} in
  let after := set_map None synced_world in
  _synced (self synced_world) = true /\
  _map (self synced_world) = Some 5 /\
  live_markers "mapillary" (log synced_world) = 1 /\
  _map (self after) = None /\
  In (Issued removal) (log after) /\
  (forall ok, ~ In (Settled removal ok) (log after)) /\
  removal_pending after = true.
Proof.
  vm_compute. repeat split.
  - repeat (first [left; reflexivity | right]).
  - intros ok H. repeat (destruct H as [H|H]; try discriminate H).
    destruct H.
Qed.

(** ** The location marker *)

(** C5 fails when an assignment arrives while a synchronisation is
    suspended. First: the map is cleared while [_syncMaps] waits for the
    image index; the removal completes, with no marker; the suspended
    [_syncMaps] then goes on and creates the marker, which nothing
    removes. Second: the viewer is replaced while [_syncMaps] waits for the
    image index; the removal completes, and both the suspended and the new
    [_syncMaps] create a marker. *)
Theorem marker_created_after_unsync :
  live_markers "mapillary" (log map_cleared_unsynced) = 0 /\
  removal_pending map_cleared_unsynced = false /\
  _synced (self map_cleared_done) = false /\
  List.length (pending map_cleared_done) = 0 /\
  live_markers "mapillary" (log map_cleared_done) = 1 /\
  List.length (pending overlapping_syncs) = 0 /\
  live_markers "mapillary" (log overlapping_syncs) = 2.
Proof.
  vm_compute. repeat split.
Qed.

(** * Further properties of the model *)

(** ** Assigning the same instance again *)

Lemma same_instance_refl (a : option nat) : same_instance a a = true.
Proof.
  destruct a; simpl; [apply Nat.eqb_refl | reflexivity].
Qed.

(** X1. Assigning the instance that was just assigned does nothing: no
    listener is attached or detached, no command is sent, no task is
    started, be it the viewer or the map, and whatever the first
    assignment did. *)
Theorem assigning_again_does_nothing (w : World) :
  (forall instance : option Viewer,
     set_mapillary instance (world_of (set_mapillary instance w))
     = Normal (world_of (set_mapillary instance w))) /\
  (forall instance : option MapModel,
     set_map instance (set_map instance w) = set_map instance w).
Proof.
  split; intros instance.
  - assert (Hstored : _mapillary (self (world_of (set_mapillary instance w)))
                      = instance).
    { unfold set_mapillary.
      destruct (same_instance instance (_mapillary (self w))) eqn:Hsame.
      - simpl. destruct instance as [v|], (_mapillary (self w)) as [v'|];
          simpl in *; try discriminate; try reflexivity.
        apply Nat.eqb_eq in Hsame. now subst.
      - rewrite (proj1 (attach_keeps instance _)). reflexivity. }
    unfold set_mapillary at 1. rewrite Hstored, same_instance_refl.
    reflexivity.
  - assert (Hstored : _map (self (set_map instance w)) = instance).
    { unfold set_map.
      destruct (same_instance instance (_map (self w))) eqn:Hsame.
      - destruct instance as [v|], (_map (self w)) as [v'|];
          simpl in *; try discriminate; try reflexivity.
        apply Nat.eqb_eq in Hsame. now subst.
      - reflexivity. }
    unfold set_map at 1. rewrite Hstored, same_instance_refl. reflexivity.
Qed.

(** ** Resolving the camera without a cached position *)

(** X2. Resolving the camera never changes the model. With a viewer
    attached and no merged position cached, the position is asked of the
    viewer: when the three questions are answered the camera has the
    position answered by [getPosition()], the bearing as its heading, the
    viewer's tilt plus 90 and the field of view; when one of them is
    rejected, so is the camera. *)
Theorem camera_falls_back_to_raw_position (o : Oracle) (w : World) :
  self (snd (run o _getMapillaryCamera w)) = self w /\
  (forall v,
     _mapillary (self w) = Some v ->
     _currentNodePosition (self w) = None ->
     In (Issued (GetPosition v)) (events_of o _getMapillaryCamera w) /\
     (forall Q pov f,
        o (GetPosition v) = Resolved Q ->
        o (GetPointOfView v) = Resolved pov ->
        o (GetFieldOfView v) = Resolved f ->
        fst (run o _getMapillaryCamera w)
        = Resolved (Some {| latitude := lat Q; longitude := lon Q;
                            heading := bearing pov;
                            tilt := (pov_tilt pov + 90)%float;
                            fov := f |})) /\
     ((exists e, o (GetPosition v) = Rejected e) \/
      (exists e, o (GetPointOfView v) = Rejected e) \/
      (exists e, o (GetFieldOfView v) = Rejected e) ->
      exists e, fst (run o _getMapillaryCamera w) = Rejected e)).
Proof.
  split.
  - methods. simpl.
    destruct (_mapillary (self w)) as [v|]; simpl; [|reflexivity].
    destruct (_currentNodePosition (self w)); simpl;
      repeat (break_match; simpl); reflexivity.
  - intros v Hv Hnone. methods. simpl. rewrite Hv, Hnone. simpl.
    split; [|split].
    + destruct (o (GetPosition v)), (o (GetPointOfView v)),
        (o (GetFieldOfView v)); simpl; tauto.
    + intros Q pov f HQ Hpov Hf. rewrite HQ, Hpov, Hf. reflexivity.
    + intros Hrejected.
      destruct (o (GetPosition v)), (o (GetPointOfView v)),
        (o (GetFieldOfView v)); simpl; eauto;
        destruct Hrejected as [[e' H]|[[e' H]|[e' H]]]; discriminate H.
Qed.

Lemma camera_falls_back_to_raw_position_witness :
  fst (run (answering JNull) _getMapillaryCamera synced_world)
  = Resolved (Some {| latitude := 1; longitude := 2; heading := 90;
                      tilt := 90; fov := 55 |}).
Proof.
  exact (proj1 (proj2 (proj2 (camera_falls_back_to_raw_position
                                (answering JNull) synced_world)
                         1 eq_refl eq_refl))
           {| lat := 1; lon := 2 |} {| bearing := 90; pov_tilt := 0 |}
           55%float eq_refl eq_refl eq_refl).
Defined.

(** ** The first synchronisation *)

(** What [_syncMaps] does to the model when it starts, and that it does
    nothing else to it. *)
Lemma _syncMaps_self (o : Oracle) (w : World) (mp : MapModel) (v : Viewer) :
  _map (self w) = Some mp ->
  _mapillary (self w) = Some v ->
  _synced (self w) = false ->
  self (snd (run o _syncMaps w))
  = match view w mp with
    | Some _ =>
        set_updating false
          (set_synchronizePosition (nullish (startSynced (self w)) true)
             (set_synced true (self w)))
    | None =>
        set_synchronizePosition (nullish (startSynced (self w)) true)
          (set_synced true (self w))
    end.
Proof.
  intros Hmap Hv Hsynced.
  destruct w as [m vw lg pd nh]. destruct m. simpl in *. subst.
  methods. unfold query_url. simpl.
  destruct (vw mp); simpl; [|reflexivity].
  repeat (break_match; simpl); reflexivity.
Qed.

(** X3. A synchronisation that has started is not started again: with the
    map and the viewer attached, [_syncMaps] marks the model synced and
    takes [synchronizePosition] from [startSynced] (true when it is not
    configured), whatever happens next; even when the image index, the
    viewer or the commands fail and no marker is created, a later call of
    [_syncMaps] does nothing. *)
Theorem started_sync_is_not_repeated (o next : Oracle) (w : World)
    (mp : MapModel) (v : Viewer) :
  _map (self w) = Some mp ->
  _mapillary (self w) = Some v ->
  _synced (self w) = false ->
  let w' := snd (run o _syncMaps w) in
  _synced (self w') = true /\
  synchronizePosition (self w') = nullish (startSynced (self w)) true /\
  run next _syncMaps w' = (Resolved tt, w').
Proof.
  intros Hmap Hv Hsynced w'.
  pose proof (_syncMaps_self o w mp v Hmap Hv Hsynced) as Hself.
  fold w' in Hself.
  assert (Hnow : _synced (self w') = true)
    by (rewrite Hself; destruct (view w mp); reflexivity).
  split; [exact Hnow|]. split.
  - rewrite Hself. destruct (view w mp); reflexivity.
  - methods. simpl. rewrite Hnow.
    destruct (_map (self w')), (_mapillary (self w')); reflexivity.
Qed.

Lemma started_sync_is_not_repeated_witness :
  let o := pov_failing (one_feature "abc") in
  let w := modify (set_synced false) synced_world in
  _synced (self (snd (run o _syncMaps w))) = true /\
  events_of o _syncMaps (snd (run o _syncMaps w)) = [].
Proof.
  intros o w.
  destruct (started_sync_is_not_repeated o o w 5 1 eq_refl eq_refl eq_refl)
    as (Hsynced & _ & Hnoop).
  split; [exact Hsynced | reflexivity].
Defined.

(** X4. The marker that [_syncMaps] creates is the camera of the viewer:
    it carries the component's id and map and is draggable; its heading is
    the bearing, its tilt the viewer's tilt plus 90, its field of view the
    viewer's, and its place the cached merged position, or the position
    answered by [getPosition()] when none is cached. *)
Theorem marker_is_created_at_the_camera (o : Oracle) (w : World)
    (a : CreateArgs) :
  In (Issued (LocationMarkerCreate a)) (events_of o _syncMaps w) ->
  c_userDraggable a = true /\
  c_id a = id (self w) /\
  c_maps a = _map (self w) /\
  exists v pov f,
    _mapillary (self w) = Some v /\
    o (GetPointOfView v) = Resolved pov /\
    o (GetFieldOfView v) = Resolved f /\
    c_heading a = bearing pov /\
    c_tilt a = (pov_tilt pov + 90)%float /\
    c_fov a = f /\
    match _currentNodePosition (self w) with
    | Some P => c_geometry a = {| pt_latitude := lat P; pt_longitude := lon P |}
    | None => exists Q, o (GetPosition v) = Resolved Q /\
                        c_geometry a = {| pt_latitude := lat Q;
                                          pt_longitude := lon Q |}
    end.
Proof.
  intros Hin.
  destruct w as [m vw lg pd nh]. destruct m.
  methods. unfold query_url in *. simpl in *.
  repeat (break_match; simpl in * ); search_log; create_found.
Qed.

Lemma marker_is_created_at_the_camera_witness :
  let w := modify (set_synced false) synced_world in
  exists v pov f,
    _mapillary (self w) = Some v /\
    answering (one_feature "abc") (GetPointOfView v) = Resolved pov /\
    answering (one_feature "abc") (GetFieldOfView v) = Resolved f /\
    (90 = bearing pov)%float /\
    (90 = pov_tilt pov + 90)%float /\
    55%float = f /\
    exists Q, answering (one_feature "abc") (GetPosition v) = Resolved Q /\
              {| pt_latitude := 1; pt_longitude := 2 |}
              = {| pt_latitude := lat Q; pt_longitude := lon Q |}.
Proof.
  intros w.
  apply (marker_is_created_at_the_camera (answering (one_feature "abc")) w
           {| c_fov := 55; c_geometry := {| pt_latitude := 1;
                                            pt_longitude := 2 |};
              c_heading := 90; c_tilt := 90; c_id := "mapillary";
              c_maps := Some 5; c_userDraggable := true |}).
  vm_compute. repeat (first [left; reflexivity | right]).
Defined.

(** X5. The map is moved only when the model synchronises positions:
    [_syncMaps] sends [zoomToViewpoint] only if [startSynced] is not false,
    the point-of-view cycle only if [synchronizePosition] is set; the
    viewpoint is then for the component's map, at [defaultScale], and
    centred where the marker is created or moved. *)
Theorem map_moves_only_when_synchronizing (o : Oracle) (w : World)
    (a : ZoomArgs) :
  (In (Issued (ZoomToViewpoint a)) (events_of o _syncMaps w) ->
   nullish (startSynced (self w)) true = true /\
   z_maps a = _map (self w) /\
   scale (viewpoint a) = defaultScale (self w) /\
   exists c, In (Issued (LocationMarkerCreate c)) (events_of o _syncMaps w) /\
             c_geometry c = targetGeometry (viewpoint a)) /\
  (In (Issued (ZoomToViewpoint a)) (events_of o _onPerspectiveChange w) ->
   synchronizePosition (self w) = true /\
   z_maps a = _map (self w) /\
   scale (viewpoint a) = defaultScale (self w) /\
   exists u, In (Issued (LocationMarkerUpdate u))
                (events_of o _onPerspectiveChange w) /\
             u_geometry u = targetGeometry (viewpoint a)).
Proof.
  destruct w as [m vw lg pd nh]. destruct m.
  split; intros Hin; methods; unfold query_url in *; simpl in *;
    repeat (break_match; simpl in * ); search_log; zoom_with_marker.
Qed.

Lemma map_moves_only_when_synchronizing_witness :
  synchronizePosition (self synced_world) = true.
Proof.
  refine (proj1 (proj2 (map_moves_only_when_synchronizing
                          (answering JNull) synced_world
                          {| z_maps := Some 5;
                             viewpoint :=
                               {| rotation := 270;
                                  targetGeometry := {| pt_latitude := 1;
                                                       pt_longitude := 2 |};
                                  scale := 3000 |} |}) _)).
  vm_compute. repeat (first [left; reflexivity | right]).
Defined.

(** ** Finding the nearest image with no viewer *)

(** X6. [moveCloseToPosition] first asks the image index, at the
    configured endpoint, with the configured key and radius and the place
    as (longitude, latitude), and changes no field but [updating], which
    it leaves false. With no viewer attached it cannot show the result:
    its promise is rejected with a [TypeError] whatever the index
    answers, and neither [moveToKey] nor [activateCover] is called. *)
Theorem moveCloseToPosition_without_viewer (o : Oracle) (w : World)
    (latitude longitude : float) :
  let evs := events_of o (moveCloseToPosition latitude longitude) w in
  let url := {| endpoint := imageQueryUrl (self w);
                client_id := mapillaryKey (self w);
                closeto := (longitude, latitude);
                radius := searchRadius (self w) |} in
  self (snd (run o (moveCloseToPosition latitude longitude) w))
  = set_updating false (self w) /\
  (exists rest, evs = Issued (Fetch url) :: rest) /\
  (_mapillary (self w) = None ->
   fst (run o (moveCloseToPosition latitude longitude) w)
   = Rejected TypeError /\
   no_navigation evs /\
   forall v, ~ In (ActivateCover v) evs).
Proof.
  intros evs url. subst evs url.
  destruct w as [m vw lg pd nh]. destruct m.
  methods. unfold query_url, no_navigation. simpl.
  split; [|split].
  - repeat (break_match; simpl); reflexivity.
  - repeat (break_match; simpl); eexists; reflexivity.
  - intros ->. simpl.
    repeat (break_match; simpl);
      (split; [reflexivity|split; [intros v key Hin|intros v Hin]]);
      search_log.
Qed.

Lemma moveCloseToPosition_without_viewer_witness :
  fst (run (answering (one_feature "abc")) (moveCloseToPosition 10 20)
           map_attached)
  = Rejected TypeError.
Proof.
  exact (proj1 (proj2 (proj2 (moveCloseToPosition_without_viewer
                                (answering (one_feature "abc")) map_attached
                                10%float 20%float))
                  eq_refl)).
Defined.

(** ** The point-of-view cycle and the marker's echo *)

(** What a cycle whose camera is resolved leaves in the model. *)
Lemma cycle_self (o : Oracle) (w : World) (v : Viewer) (mp : MapModel)
    (P : LatLon) (pov : PointOfView) (f : float) :
  _map (self w) = Some mp ->
  _mapillary (self w) = Some v ->
  updating (self w) = false ->
  _currentNodePosition (self w) = Some P ->
  o (GetPointOfView v) = Resolved pov ->
  o (GetFieldOfView v) = Resolved f ->
  self (snd (run o _onPerspectiveChange w))
  = set_updating false
      (set_handleMarkerUpdate false (set_updating true (self w))) /\
  In (Issued (LocationMarkerUpdate
                {| u_geometry := {| pt_latitude := lat P;
                                    pt_longitude := lon P |};
                   u_heading := bearing pov;
                   u_tilt := (pov_tilt pov + 90)%float;
                   u_fov := f;
                   u_id := id (self w);
                   u_maps := Some mp |}))
     (events_of o _onPerspectiveChange w).
Proof.
  intros Hmap Hv Hupd HP Hpov Hfov.
  destruct w as [m vw lg pd nh]. destruct m. simpl in *. subst.
  methods. simpl. rewrite Hpov, Hfov. simpl.
  split.
  - repeat (break_match; simpl); reflexivity.
  - repeat (break_match; simpl); repeat (first [left; reflexivity | right]).
Qed.

(** X7. A point-of-view cycle moves the marker to the cached position of
    the node, with the viewer's bearing, tilt plus 90 and field of view,
    and the model does not take the echo of that move for a move by the
    user: the next [locationMarker.updated] event leaves
    [currentMarkerPosition] as it was before the cycle, the one after it
    is recorded. The cycle ends with [updating] false. *)
Theorem own_marker_update_is_not_recorded (o : Oracle) (w : World)
    (v : Viewer) (mp : MapModel) (P : LatLon) (pov : PointOfView) (f : float)
    (echo next : MarkerEvent) :
  _map (self w) = Some mp ->
  _mapillary (self w) = Some v ->
  updating (self w) = false ->
  _currentNodePosition (self w) = Some P ->
  o (GetPointOfView v) = Resolved pov ->
  o (GetFieldOfView v) = Resolved f ->
  let m' := self (snd (run o _onPerspectiveChange w)) in
  In (Issued (LocationMarkerUpdate
                {| u_geometry := {| pt_latitude := lat P;
                                    pt_longitude := lon P |};
                   u_heading := bearing pov;
                   u_tilt := (pov_tilt pov + 90)%float;
                   u_fov := f;
                   u_id := id (self w);
                   u_maps := Some mp |}))
     (events_of o _onPerspectiveChange w) /\
  updating m' = false /\
  currentMarkerPosition (_handleViewerUpdate echo m')
  = currentMarkerPosition (self w) /\
  currentMarkerPosition (_handleViewerUpdate next (_handleViewerUpdate echo m'))
  = Some {| pt_latitude := pt_latitude (geometry next);
            pt_longitude := pt_longitude (geometry next) |}.
Proof.
  intros Hmap Hv Hupd HP Hpov Hfov m'.
  destruct (cycle_self o w v mp P pov f Hmap Hv Hupd HP Hpov Hfov)
    as (Hself & Hsent).
  subst m'. rewrite Hself. repeat split. exact Hsent.
Qed.

Lemma own_marker_update_is_not_recorded_witness :
  let w := modify (set_currentNodePosition (Some {| lat := 48; lon := 11 |}))
             synced_world in
  let m' := self (snd (run (answering JNull) _onPerspectiveChange w)) in
  let echo := {| geometry := {| pt_latitude := 48; pt_longitude := 11 |} |} in
  updating m' = false /\
  currentMarkerPosition (_handleViewerUpdate echo m') = None.
Proof.
  intros w m' echo.
  destruct (own_marker_update_is_not_recorded (answering JNull) w 1 5
              {| lat := 48; lon := 11 |} {| bearing := 90; pov_tilt := 0 |}
              55%float echo echo
              eq_refl eq_refl eq_refl eq_refl eq_refl eq_refl)
    as (_ & Hupd & Hecho & _).
  split; [exact Hupd | exact Hecho].
Defined.

(** X8. While a point-of-view cycle or a synchronisation is under way, a
    further call is dropped: starting either a second time leaves the
    world as the first start left it, nothing being sent or queued. With
    the map and the viewer attached and no cycle under way, the first call
    of the cycle does start: it sets [updating] and is suspended on the
    viewer's answers. *)
Theorem second_start_is_dropped (w : World) :
  spawn _onPerspectiveChange (spawn _onPerspectiveChange w)
  = spawn _onPerspectiveChange w /\
  spawn _syncMaps (spawn _syncMaps w) = spawn _syncMaps w /\
  (forall mp v,
     _map (self w) = Some mp ->
     _mapillary (self w) = Some v ->
     updating (self w) = false ->
     updating (self (spawn _onPerspectiveChange w)) = true /\
     List.length (pending (spawn _onPerspectiveChange w))
     = S (List.length (pending w)) /\
     In (Issued (GetPointOfView v)) (log (spawn _onPerspectiveChange w))).
Proof.
  destruct w as [m vw lg pd nh]. destruct m.
  unfold spawn. methods. unfold query_url. simpl.
  split; [|split].
  - repeat (break_match; simpl in * ); invert_outcomes; try reflexivity;
      try discriminate.
  - repeat (break_match; simpl in * ); invert_outcomes; try reflexivity;
      try discriminate.
  - intros mp v -> -> ->. simpl.
    destruct _currentNodePosition0; simpl;
      (split; [reflexivity|split; [rewrite length_app; simpl; lia|]]);
      apply in_or_app; right; simpl; tauto.
Qed.

Lemma second_start_is_dropped_witness :
  updating (self (spawn _onPerspectiveChange synced_world)) = true.
Proof.
  exact (proj1 (proj2 (proj2 (second_start_is_dropped synced_world))
                  5 1 eq_refl eq_refl eq_refl)).
Defined.

(** ** The node of the viewer *)

(** Starting a point-of-view cycle leaves the viewer and the cached
    position as they are. *)
Lemma spawn_cycle_keeps (w : World) :
  _mapillary (self (spawn _onPerspectiveChange w)) = _mapillary (self w) /\
  _currentNodePosition (self (spawn _onPerspectiveChange w))
  = _currentNodePosition (self w).
Proof.
  destruct w as [m vw lg pd nh]. destruct m.
  unfold spawn. methods. simpl.
  repeat (break_match; simpl in * ); invert_outcomes; split; reflexivity.
Qed.

(** X9. The node of the viewer decides where the camera is taken from. A
    merged node has its position cached and the model listens to
    [povchanged]: every camera resolved afterwards is at the position of
    the node, and [getPosition()] is not called. A node not merged clears
    the cache and the model stops listening: a camera resolved afterwards
    asks [getPosition()]. With no viewer attached the handler throws a
    [TypeError], the cache being changed all the same. *)
Theorem node_decides_the_position (o : Oracle) (through : bool) (node : Node)
    (w : World) :
  let w' := world_of (_onNodeChange through node w) in
  _currentNodePosition (self w')
  = (if merged node then Some (latLon node) else None) /\
  (forall v,
     _mapillary (self w) = Some v ->
     merged node = true ->
     _onNodeChange through node w = Normal w' /\
     (exists before, log w' = before ++ [On v povchanged]) /\
     (forall c, fst (run o _getMapillaryCamera w') = Resolved (Some c) ->
                latitude c = lat (latLon node) /\
                longitude c = lon (latLon node)) /\
     (forall v', ~ In (Issued (GetPosition v'))
                      (events_of o _getMapillaryCamera w'))) /\
  (forall v,
     _mapillary (self w) = Some v ->
     merged node = false ->
     _onNodeChange through node w = Normal w' /\
     log w' = log w ++ [Off v povchanged] /\
     In (Issued (GetPosition v)) (events_of o _getMapillaryCamera w')) /\
  (_mapillary (self w) = None ->
   exists w'', _onNodeChange through node w = Abrupt TypeError w'').
Proof.
  intros w'. subst w'. unfold _onNodeChange.
  destruct (merged node) eqn:Hmerged.
  - (* merged *)
    set (w1 := modify (set_currentNodePosition (Some (latLon node))) w).
    set (w2 := if through then spawn _onPerspectiveChange w1 else w1).
    assert (Hkeep : _mapillary (self w2) = _mapillary (self w) /\
                    _currentNodePosition (self w2) = Some (latLon node)).
    { subst w2. destruct through.
      - destruct (spawn_cycle_keeps w1) as (-> & ->). split; reflexivity.
      - split; reflexivity. }
    destruct Hkeep as (Hv2 & HP2).
    split; [|split; [|split]].
    + destruct (_mapillary (self w2)); simpl; exact HP2.
    + intros v Hv _. rewrite Hv2, Hv. simpl.
      split; [reflexivity|]. split; [eexists; reflexivity|].
      methods. simpl. rewrite Hv2, Hv, HP2. simpl.
      split.
      * intros c.
        destruct (o (GetPointOfView v)), (o (GetFieldOfView v)); simpl;
          try discriminate.
        intros [= <-]. split; reflexivity.
      * intros v' Hin.
        destruct (o (GetPointOfView v)), (o (GetFieldOfView v));
          simpl in Hin; search_log.
    + intros v _ Hfalse. discriminate Hfalse.
    + intros Hnone. rewrite Hv2, Hnone. eexists; reflexivity.
  - (* not merged *)
    simpl. split; [|split; [|split]].
    + destruct (_mapillary (self w)); reflexivity.
    + intros v _ Htrue. discriminate Htrue.
    + intros v Hv _. rewrite Hv. simpl.
      split; [reflexivity|]. split; [reflexivity|].
      methods. simpl. rewrite Hv. simpl.
      destruct (o (GetPosition v)), (o (GetPointOfView v)),
        (o (GetFieldOfView v)); simpl; tauto.
    + intros Hnone. rewrite Hnone. eexists; reflexivity.
Qed.

Lemma node_decides_the_position_witness :
  let node := {| merged := true; latLon := {| lat := 48; lon := 11 |} |} in
  let w' := world_of (_onNodeChange true node synced_world) in
  _onNodeChange true node synced_world = Normal w' /\
  forall v', ~ In (Issued (GetPosition v'))
                  (events_of (answering JNull) _getMapillaryCamera w').
Proof.
  intros node w'.
  destruct (proj1 (proj2 (node_decides_the_position
                            (answering JNull) true node synced_world))
              1 eq_refl eq_refl) as (Hnormal & _ & _ & Hnever).
  split; [exact Hnormal | exact Hnever].
Defined.

(** ** Destroying the model *)

(** X10. Destroying the model removes its two handles and nothing else:
    the model keeps its fields, [_synced] included, the pending tasks go
    on, and no command is sent, so that a marker that was created stays
    on the map. *)
Theorem destroying_leaves_the_marker (w : World) :
  self (_onDestroy w) = self w /\
  pending (_onDestroy w) = pending w /\
  (forall ev, In ev (log (_onDestroy w)) ->
              In ev (log w) \/ exists h, ev = HandleRemove h) /\
  (forall cid, live_markers cid (log (_onDestroy w))
               = live_markers cid (log w)).
Proof.
  unfold _onDestroy.
  destruct (_viewerUpdateHandle (self w)) as [h1|];
    destruct (_awaitViewHandle (self w)) as [h2|] eqn:Hawait; simpl;
    rewrite ?Hawait; simpl; repeat split;
    try (intros ev Hin; repeat (apply in_app_or in Hin; destruct Hin as [Hin|Hin]);
         simpl in *; intuition eauto);
    intros cid; unfold live_markers; rewrite ?fold_left_app; reflexivity.
Qed.

(** ** What holds after every history *)

Lemma stable_refl (m : MapillaryModel) : stable m m.
Proof. unfold stable. repeat split. Qed.

Lemma stable_trans (m1 m2 m3 : MapillaryModel) :
  stable m1 m2 -> stable m2 m3 -> stable m1 m3.
Proof.
  unfold stable. intros (H1 & H2 & H3 & H4 & H5) (K1 & K2 & K3 & K4 & K5).
  repeat split; congruence.
Qed.

Lemma tame_weaken {A} (p : Async A) : tame true p -> tame false p.
Proof.
  induction p as [a|e|k IH|f k IH|m k IH|ev k IH|T b k IH]; simpl; auto.
  - intros (_ & H). auto.
  - intros (Hq & H). auto.
Qed.

Lemma quiet_keeps_subscriptions (evs : list Event) : forall live,
  Forall quiet evs ->
  fold_left count_subscription evs live = live.
Proof.
  induction evs as [|ev evs IH]; intros live Hq; simpl; [reflexivity|].
  inversion Hq as [|? ? Hev Hrest]; subst.
  destruct ev; simpl in *; try contradiction; now apply IH.
Qed.

Lemma live_subscriptions_app (l evs : list Event) :
  live_subscriptions (l ++ evs)
  = fold_left count_subscription evs (live_subscriptions l).
Proof. unfold live_subscriptions. apply fold_left_app. Qed.

(** What a tame method can do up to its next [await]. *)
Lemma advance_tame {A} (p : Async A) : forall (strict : bool) (w : World),
  tame strict p ->
  (exists evs, log (snd (advance p w)) = log w ++ evs /\ Forall quiet evs) /\
  (strict = true -> stable (self w) (self (snd (advance p w)))) /\
  match fst (advance p w) with
  | Waiting _ k => forall o, tame true (k o)
  | Finished _ => True
  end.
Proof.
  induction p as [a|e|k IH|f k IH|m k IH|ev k IH|T b k IH];
    intros strict w Htame; simpl in *.
  - split; [exists []; now rewrite app_nil_r|].
    split; [intros _; apply stable_refl | exact I].
  - split; [exists []; now rewrite app_nil_r|].
    split; [intros _; apply stable_refl | exact I].
  - apply IH, Htame.
  - destruct Htame as (Hf & Hk).
    destruct (IH strict (with_self (f (self w)) w) Hk) as (Hlog & Hst & Hw).
    split; [exact Hlog|]. split; [|exact Hw].
    intros ->. apply stable_trans with (f (self w)); [apply Hf|now apply Hst].
  - apply IH, Htame.
  - destruct Htame as (Hq & Hk).
    destruct (IH strict (record [ev] w) Hk) as ((evs & Hlog & Hqs) & Hst & Hw).
    split; [|split; [exact Hst | exact Hw]].
    exists (ev :: evs). split; [|now constructor].
    rewrite Hlog. simpl. now rewrite <- app_assoc.
  - split; [|split; [intros _; apply stable_refl | exact Htame]].
    exists (map Issued (requests b)). split; [reflexivity|].
    apply Forall_forall. intros ev Hin. apply in_map_iff in Hin.
    destruct Hin as (r & <- & _). exact I.
Qed.

Lemma tame_moveCloseToPosition (latitude longitude : float) :
  tame true (moveCloseToPosition latitude longitude).
Proof. methods. tame_steps. Qed.

Lemma tame_recenter : tame true recenter.
Proof. methods. tame_steps. Qed.

Lemma tame_onPerspectiveChange : tame true _onPerspectiveChange.
Proof. methods. tame_steps. Qed.

Lemma tame_unsyncMaps : tame false _unsyncMaps.
Proof. methods. tame_steps. Qed.

Lemma tame_syncMaps : tame false _syncMaps.
Proof. methods. unfold query_url. tame_steps. Qed.

(** Starting a tame method keeps the pending tasks tame and the
    subscriptions as they are. *)
Lemma spawn_tame (strict : bool) (p : Async unit) (w : World) :
  tame strict p ->
  pending_tame w ->
  pending_tame (spawn p w) /\
  live_subscriptions (log (spawn p w)) = live_subscriptions (log w) /\
  (strict = true -> stable (self w) (self (spawn p w))).
Proof.
  intros Htame Hpending.
  destruct (advance_tame p strict w Htame) as ((evs & Hlog & Hquiet) & Hst & Hk).
  pose proof (advance_pending p w) as Hsame.
  unfold spawn, pending_tame in *.
  destruct (advance p w) as [[[x|e]|T b k] w']; simpl in *.
  - rewrite Hsame, Hlog, live_subscriptions_app, quiet_keeps_subscriptions;
      auto.
  - rewrite Hsame, Hlog, <- app_assoc, live_subscriptions_app,
      quiet_keeps_subscriptions; auto.
    apply Forall_app. split; [exact Hquiet|]. repeat constructor.
  - rewrite Hsame, Hlog, live_subscriptions_app, quiet_keeps_subscriptions;
      auto.
    split; [|split; auto].
    apply Forall_app. split; [exact Hpending|]. constructor; [exact Hk|constructor].
Qed.

Lemma invariant_kept (w w' : World) :
  pending_tame w' ->
  stable (self w) (self w') ->
  live_subscriptions (log w') = live_subscriptions (log w) ->
  invariant w -> invariant w'.
Proof.
  intros Hp (Hs & Hm & Hv & Hh & _) Hlive (_ & Hboth & Hone).
  split; [exact Hp|]. split.
  - unfold synced_with_both in *. rewrite Hs, Hm, Hv. exact Hboth.
  - unfold one_subscription in *. rewrite Hlive, Hh. exact Hone.
Qed.

Lemma spawn_keeps_invariant (p : Async unit) (w : World) :
  tame true p -> invariant w -> invariant (spawn p w).
Proof.
  intros Htame Hinv.
  destruct (spawn_tame true p w Htame (proj1 Hinv)) as (Hp & Hlive & Hst).
  apply (invariant_kept w); auto.
Qed.

(** What starting [_syncMaps] can change in the model. *)
Lemma spawn_syncMaps_fields (w : World) :
  _map (self (spawn _syncMaps w)) = _map (self w) /\
  _mapillary (self (spawn _syncMaps w)) = _mapillary (self w) /\
  _viewerUpdateHandle (self (spawn _syncMaps w)) = _viewerUpdateHandle (self w) /\
  (_synced (self (spawn _syncMaps w)) = true ->
   _synced (self w) = true \/
   (_map (self w) <> None /\ _mapillary (self w) <> None)).
Proof.
  destruct w as [m vw lg pd nh]. destruct m.
  unfold spawn. methods. unfold query_url. simpl.
  repeat (break_match; simpl in * ); invert_outcomes;
    repeat split; auto; intros _; right; split; discriminate.
Qed.

Lemma spawn_syncMaps_keeps_invariant (w : World) :
  invariant w -> invariant (spawn _syncMaps w).
Proof.
  intros (Hp & Hboth & Hone).
  destruct (spawn_tame false _syncMaps w tame_syncMaps Hp) as (Hp' & Hlive & _).
  destruct (spawn_syncMaps_fields w) as (Hm & Hv & Hh & Hs).
  split; [exact Hp'|]. split.
  - unfold synced_with_both in *. rewrite Hm, Hv. intros Hsynced.
    destruct (Hs Hsynced) as [Hold|Hpresent]; auto.
  - unfold one_subscription in *. rewrite Hlive, Hh. exact Hone.
Qed.

Lemma spawn_unsyncMaps_keeps_invariant (w : World) :
  invariant w ->
  invariant (spawn _unsyncMaps w) /\
  _synced (self (spawn _unsyncMaps w)) = false /\
  stable (set_synced false (self w)) (self (spawn _unsyncMaps w)).
Proof.
  intros (Hp & Hboth & Hone).
  destruct (spawn_tame false _unsyncMaps w tame_unsyncMaps Hp) as (Hp' & Hlive & _).
  destruct (spawn_unsyncMaps w) as (Hself & _ & _).
  split; [|rewrite Hself; split; [reflexivity|apply stable_refl]].
  split; [exact Hp'|]. split.
  - unfold synced_with_both. rewrite Hself. simpl. discriminate.
  - unfold one_subscription in *. rewrite Hlive, Hself. exact Hone.
Qed.

(** Removing a handle leaves at most the subscription there was. *)
Lemma remove_handle_keeps_invariant (h : option Handle) (w : World) :
  invariant w -> invariant (remove_handle h w).
Proof.
  intros (Hp & Hboth & Hone).
  destruct h as [h|]; simpl; [|exact (conj Hp (conj Hboth Hone))].
  split; [exact Hp|]. split; [exact Hboth|].
  unfold one_subscription in *. simpl. rewrite live_subscriptions_app. simpl.
  destruct Hone as [->|(h0 & -> & Hh0)]; simpl; [now left|].
  destruct (Nat.eqb h0 h); simpl; [now left|right; eauto].
Qed.

(** Removing the handle that the model holds leaves no subscription. *)
Lemma remove_own_handle (w : World) :
  invariant w ->
  live_subscriptions
    (log (remove_handle (_viewerUpdateHandle (self w)) w)) = [].
Proof.
  intros (_ & _ & Hone).
  destruct Hone as [Hnone|(h & Hlive & Hh)].
  - destruct (_viewerUpdateHandle (self w)); simpl; auto.
    rewrite live_subscriptions_app, Hnone. reflexivity.
  - rewrite Hh. simpl. rewrite live_subscriptions_app, Hlive. simpl.
    now rewrite Nat.eqb_refl.
Qed.

Lemma emit_quiet_keeps_invariant (ev : Event) (w : World) :
  quiet ev -> invariant w -> invariant (emit ev w).
Proof.
  intros Hq Hinv. apply (invariant_kept w); try apply Hinv.
  - apply stable_refl.
  - unfold emit, record. simpl. rewrite live_subscriptions_app.
    apply quiet_keeps_subscriptions. now repeat constructor.
Qed.

Lemma emit_quiet_live (ev : Event) (w : World) :
  quiet ev ->
  live_subscriptions (log (emit ev w)) = live_subscriptions (log w).
Proof.
  intros Hq. unfold emit, record. simpl. rewrite live_subscriptions_app.
  apply quiet_keeps_subscriptions. now repeat constructor.
Qed.

(** A model kept by the invariant and lacking a handle is not synced. *)
Lemma unsynced_without_viewer (w : World) :
  invariant w -> _mapillary (self w) = None -> _synced (self w) = false.
Proof.
  intros (_ & Hboth & _) Hnone.
  destruct (_synced (self w)) eqn:Hs; [|reflexivity].
  destruct (Hboth Hs) as (_ & Hv). contradiction.
Qed.

Lemma unsynced_without_map (w : World) :
  invariant w -> _map (self w) = None -> _synced (self w) = false.
Proof.
  intros (_ & Hboth & _) Hnone.
  destruct (_synced (self w)) eqn:Hs; [|reflexivity].
  destruct (Hboth Hs) as (Hm & _). contradiction.
Qed.

Lemma cleanup_keeps_invariant (w : World) :
  invariant w ->
  invariant (set_mapillary_cleanup w) /\
  live_subscriptions (log (set_mapillary_cleanup w)) = [] /\
  _synced (self (set_mapillary_cleanup w)) = false.
Proof.
  intros Hinv.
  pose proof (remove_handle_keeps_invariant (_viewerUpdateHandle (self w)) w Hinv)
    as Hinv1.
  pose proof (remove_own_handle w Hinv) as Hlive1.
  assert (Hv1 : _mapillary (self (remove_handle (_viewerUpdateHandle (self w)) w))
                = _mapillary (self w))
    by (destruct (_viewerUpdateHandle (self w)); reflexivity).
  unfold set_mapillary_cleanup.
  set (w1 := remove_handle (_viewerUpdateHandle (self w)) w) in *.
  destruct (_mapillary (self w1)) as [old|] eqn:Hold.
  - set (w2 := emit (ActivateCover old)
                 (emit (Off old povchanged) (emit (Off old nodechanged) w1))).
    assert (Hinv2 : invariant w2)
      by (subst w2; repeat apply emit_quiet_keeps_invariant; simpl; auto).
    assert (Hlive2 : live_subscriptions (log w2) = [])
      by (subst w2; rewrite !emit_quiet_live; simpl; auto).
    destruct (spawn_unsyncMaps_keeps_invariant w2 Hinv2) as (Hinv3 & Hs3 & _).
    split; [exact Hinv3|]. split; [|exact Hs3].
    destruct (spawn_tame false _unsyncMaps w2 tame_unsyncMaps (proj1 Hinv2))
      as (_ & -> & _). exact Hlive2.
  - split; [exact Hinv1|]. split; [exact Hlive1|].
    apply unsynced_without_viewer; assumption.
Qed.

Lemma attach_keeps_invariant (instance : option Viewer) (w : World) :
  invariant w ->
  live_subscriptions (log w) = [] ->
  invariant (world_of (set_mapillary_attach instance w)).
Proof.
  intros Hinv Hlive. unfold set_mapillary_attach.
  set (w1 := match instance with
             | Some v =>
                 let w := emit (On v nodechanged) w in
                 let (h, w) := fresh_handle w in
                 let w := emit (Subscribe h) w in
                 modify (set_viewerUpdateHandle (Some h)) w
             | None => w
             end).
  assert (Hinv1 : invariant w1).
  { subst w1. destruct instance as [v|]; [|exact Hinv].
    destruct Hinv as (Hp & Hboth & _). simpl.
    split; [exact Hp|]. split; [exact Hboth|].
    right. exists (next_handle w). split; [|reflexivity].
    simpl. rewrite !live_subscriptions_app, Hlive. reflexivity. }
  destruct (negb (_synced (self w1))); [|exact Hinv1].
  destruct (_map (self w1)) as [mp|]; [|exact Hinv1].
  destruct (view w1 mp); [|exact Hinv1].
  simpl. apply spawn_syncMaps_keeps_invariant, Hinv1.
Qed.

Lemma set_mapillary_keeps_invariant (instance : option Viewer) (w : World) :
  invariant w -> invariant (world_of (set_mapillary instance w)).
Proof.
  intros Hinv. unfold set_mapillary.
  destruct (same_instance instance (_mapillary (self w))); [exact Hinv|].
  destruct (cleanup_keeps_invariant w Hinv) as (Hinv1 & Hlive1 & Hs1).
  apply attach_keeps_invariant; [|exact Hlive1].
  destruct Hinv1 as (Hp & _ & _).
  split; [exact Hp|]. split.
  - unfold synced_with_both. simpl. rewrite Hs1. discriminate.
  - left. exact Hlive1.
Qed.

Lemma set_map_keeps_invariant (instance : option MapModel) (w : World) :
  invariant w -> invariant (set_map instance w).
Proof.
  intros Hinv. unfold set_map.
  destruct (same_instance instance (_map (self w))); [exact Hinv|].
  assert (Hclean : invariant (set_map_cleanup w) /\
                   _synced (self (set_map_cleanup w)) = false).
  { unfold set_map_cleanup. destruct (_map (self w)) eqn:Hold.
    - destruct (spawn_unsyncMaps_keeps_invariant w Hinv) as (H1 & H2 & _).
      split; assumption.
    - split; [exact Hinv|]. apply unsynced_without_map; assumption. }
  destruct Hclean as ((Hp & _ & Hone) & Hs). simpl.
  split; [exact Hp|]. split.
  - unfold synced_with_both. simpl. rewrite Hs. discriminate.
  - unfold one_subscription in *. simpl.
    rewrite live_subscriptions_app. simpl. exact Hone.
Qed.

Lemma on_map_view_keeps_invariant (vw : option View) (w : World) :
  invariant w -> invariant (world_of (on_map_view vw w)).
Proof.
  intros Hinv. unfold on_map_view.
  destruct vw; [|exact Hinv].
  destruct (_awaitViewHandle (self w)) as [h|]; [|exact Hinv].
  simpl. apply spawn_syncMaps_keeps_invariant.
  exact (remove_handle_keeps_invariant (Some h) w Hinv).
Qed.

Lemma modify_stable_keeps_invariant (f : MapillaryModel -> MapillaryModel)
    (w : World) :
  stable (self w) (f (self w)) -> invariant w -> invariant (modify f w).
Proof.
  intros Hst Hinv. apply (invariant_kept w); auto. apply Hinv.
Qed.

Lemma _onNodeChange_keeps_invariant (through : bool) (node : Node) (w : World) :
  invariant w -> invariant (world_of (_onNodeChange through node w)).
Proof.
  intros Hinv. unfold _onNodeChange.
  destruct (merged node).
  - set (w1 := modify (set_currentNodePosition (Some (latLon node))) w).
    assert (Hinv1 : invariant w1)
      by (apply modify_stable_keeps_invariant;
          [unfold stable; simpl; repeat split|exact Hinv]).
    set (w2 := if through then spawn _onPerspectiveChange w1 else w1).
    assert (Hinv2 : invariant w2).
    { subst w2. destruct through; [|exact Hinv1].
      apply spawn_keeps_invariant; [apply tame_onPerspectiveChange|exact Hinv1]. }
    destruct (_mapillary (self w2)); simpl; [|exact Hinv2].
    apply emit_quiet_keeps_invariant; [exact I|exact Hinv2].
  - set (w1 := modify (set_currentNodePosition None) w).
    assert (Hinv1 : invariant w1)
      by (apply modify_stable_keeps_invariant;
          [unfold stable; simpl; repeat split|exact Hinv]).
    destruct (_mapillary (self w1)); simpl; [|exact Hinv1].
    apply emit_quiet_keeps_invariant; [exact I|exact Hinv1].
Qed.

Lemma remove_nth_Forall {X} (P : X -> Prop) (xs : list X) : forall i,
  Forall P xs -> Forall P (remove_nth i xs).
Proof.
  induction xs as [|x xs IH]; intros [|i] H; simpl; auto;
    inversion H; subst; auto.
Qed.

Lemma resume_keeps_invariant (o : Oracle) (i : nat) (w : World) :
  invariant w -> invariant (resume o i w).
Proof.
  intros Hinv. unfold resume.
  destruct (nth_error (pending w) i) as [[T b k]|] eqn:Hnth; [|exact Hinv].
  apply spawn_keeps_invariant.
  - destruct Hinv as (Hp & _).
    unfold pending_tame in Hp. rewrite Forall_forall in Hp.
    exact (Hp _ (nth_error_In _ _ Hnth) (settle o b)).
  - apply (invariant_kept w); try apply Hinv.
    + unfold pending_tame. simpl. apply remove_nth_Forall. apply Hinv.
    + apply stable_refl.
    + simpl. rewrite live_subscriptions_app.
      apply quiet_keeps_subscriptions. unfold settled.
      apply Forall_forall. intros ev Hin. apply in_map_iff in Hin.
      destruct Hin as (r & <- & _). exact I.
Qed.

Lemma _handleViewerUpdate_stable (event : MarkerEvent) (m : MapillaryModel) :
  stable m (_handleViewerUpdate event m).
Proof.
  unfold _handleViewerUpdate, stable.
  destruct (_handleMarkerUpdate m); simpl; repeat split.
Qed.

Lemma perform_keeps_invariant (a : Action) (w : World) :
  invariant w -> invariant (perform w a).
Proof.
  intros Hinv. destruct a; simpl.
  - now apply set_mapillary_keeps_invariant.
  - now apply set_map_keeps_invariant.
  - exact Hinv.
  - now apply on_map_view_keeps_invariant.
  - now apply _onNodeChange_keeps_invariant.
  - apply spawn_keeps_invariant; [apply tame_onPerspectiveChange|exact Hinv].
  - apply modify_stable_keeps_invariant;
      [apply _handleViewerUpdate_stable|exact Hinv].
  - apply spawn_keeps_invariant; [apply tame_recenter|exact Hinv].
  - apply spawn_keeps_invariant; [apply tame_moveCloseToPosition|exact Hinv].
  - now apply resume_keeps_invariant.
  - unfold _onDestroy. now repeat apply remove_handle_keeps_invariant.
Qed.

Lemma after_invariant (cid : string) (views : MapModel -> option View)
    (history : list Action) :
  invariant (after cid views history).
Proof.
  unfold after.
  assert (Hinit : invariant (new_world (new_model cid) views)).
  { split; [constructor|]. split; [discriminate|now left]. }
  revert Hinit. generalize (new_world (new_model cid) views).
  induction history as [|a history IH]; intros w Hinv; simpl; [exact Hinv|].
  apply IH. now apply perform_keeps_invariant.
Qed.

(** X11. Whatever happens to a model, in whatever order (assignments of
    viewers and maps, events of the viewer and of the host, calls of its
    methods, pending tasks resuming with any answers, its destruction),
    it is marked synced only while both a map and a viewer are attached;
    in particular a model with no map or no viewer is never marked
    synced. *)
Theorem synced_only_with_map_and_viewer (cid : string)
    (views : MapModel -> option View) (history : list Action) :
  let m := self (after cid views history) in
  (_synced m = true -> _map m <> None /\ _mapillary m <> None) /\
  (_map m = None \/ _mapillary m = None -> _synced m = false).
Proof.
  intros m.
  destruct (after_invariant cid views history) as (_ & Hboth & _).
  fold m in Hboth. split; [exact Hboth|].
  intros Habsent. destruct (_synced m) eqn:Hs; [|reflexivity].
  destruct (Hboth Hs) as (Hm & Hv).
  destruct Habsent; contradiction.
Qed.

Lemma synced_only_with_map_and_viewer_witness :
  let history := [AssignMap (Some 5); AssignViewer (Some 1);
                  Settles (answering (one_feature "abc")) 0;
                  AssignMap None] in
  _synced (self (after "mapillary" ready_views history)) = false.
Proof.
  intros history.
  exact (proj2 (synced_only_with_map_and_viewer "mapillary" ready_views history)
           (or_introl eq_refl)).
Defined.

(** X12. Whatever happens to a model, at most one subscription to
    [locationMarker.updated] is live, and the model holds its handle:
    replacing or clearing the viewer, any number of times, never leaves an
    earlier subscription behind. *)
Theorem at_most_one_subscription (cid : string)
    (views : MapModel -> option View) (history : list Action) :
  let w := after cid views history in
  List.length (live_subscriptions (log w)) <= 1 /\
  (forall h, In h (live_subscriptions (log w)) ->
             _viewerUpdateHandle (self w) = Some h).
Proof.
  intros w.
  destruct (after_invariant cid views history) as (_ & _ & Hone).
  fold w in Hone. destruct Hone as [->|(h & -> & Hh)]; simpl.
  - split; [lia|intros h []].
  - split; [lia|]. intros h' [<-|[]]. exact Hh.
Qed.

Lemma at_most_one_subscription_witness :
  let history := [AssignMap (Some 5); AssignViewer (Some 1);
                  AssignViewer (Some 2); AssignViewer (Some 3)] in
  _viewerUpdateHandle (self (after "mapillary" ready_views history)) = Some 3.
Proof.
  intros history.
  apply (proj2 (at_most_one_subscription "mapillary" ready_views history)).
  vm_compute. left. reflexivity.
Defined.

(** ** Recentring the map *)

(** X13. [recenter] never changes the model. With a viewer attached, a
    merged position cached and the viewer answering, it sends one command,
    [zoomToViewpoint], for the component's map, centred on the cached
    position at [defaultScale], and its promise settles as that command
    does; when the camera is rejected it sends no command. *)
Theorem recenter_moves_the_map_to_the_camera (o : Oracle) (w : World) :
  self (snd (run o recenter w)) = self w /\
  (forall v P pov f,
     _mapillary (self w) = Some v ->
     _currentNodePosition (self w) = Some P ->
     o (GetPointOfView v) = Resolved pov ->
     o (GetFieldOfView v) = Resolved f ->
     let command :=
       ZoomToViewpoint
         {| z_maps := _map (self w);
            viewpoint :=
              {| rotation := (360 - bearing pov)%float;
                 targetGeometry := {| pt_latitude := lat P;
                                      pt_longitude := lon P |};
                 scale := defaultScale (self w) |} |} in
     events_of o recenter w
     = [Issued (GetPointOfView v); Issued (GetFieldOfView v);
        Settled (GetPointOfView v) true; Settled (GetFieldOfView v) true;
        Issued command; Settled command (is_resolved (o command))] /\
     fst (run o recenter w) = o command) /\
  ((exists e, fst (run o _getMapillaryCamera w) = Rejected e) ->
   forall a, ~ In (Issued (ZoomToViewpoint a)) (events_of o recenter w)).
Proof.
  split; [|split].
  - destruct w as [m vw lg pd nh]. destruct m.
    methods. simpl. repeat (break_match; simpl); reflexivity.
  - intros v P pov f Hv HP Hpov Hf command. subst command.
    methods. unfold getCameraRotationFromBearing. simpl.
    rewrite Hv, HP. simpl. rewrite Hpov, Hf. simpl.
    unfold settled. simpl.
    match goal with
    | |- context [o (ZoomToViewpoint ?a)] => destruct (o (ZoomToViewpoint a))
    end; simpl; rewrite Hpov, Hf; split; reflexivity.
  - intros (e & Hrejected) a Hin.
    destruct w as [m vw lg pd nh]. destruct m.
    methods. simpl in *.
    repeat (break_match; simpl in * ); invert_outcomes; search_log.
Qed.

Lemma recenter_moves_the_map_to_the_camera_witness :
  let w := modify (set_currentNodePosition (Some {| lat := 48; lon := 11 |}))
             synced_world in
  fst (run (answering JNull) recenter w) = Resolved tt.
Proof.
  intros w.
  exact (proj2 (proj1 (proj2 (recenter_moves_the_map_to_the_camera
                                (answering JNull) w))
                  1 {| lat := 48; lon := 11 |}
                  {| bearing := 90; pov_tilt := 0 |} 55%float
                  eq_refl eq_refl eq_refl eq_refl)).
Defined.

(** ** Unsynchronising *)




(** ** Waiting for the view of the map *)






